(** * Anomaly detection by KernelPCA reconstruction error

    A shallow embedding of [recon_error_kpca.py] (class [KPCA_Recon_Error])
    and the properties of its scoring and ranking pipeline.

    Modelling conventions.
    - NumPy [float64] values are real numbers ([R]); rounding, NaN and
      infinities are outside the model.
    - A 1-D array is a [list R], a 2-D array a list of rows.  NumPy arrays are
      rectangular; the functions below agree with NumPy on rectangular data.
    - Python exceptions are values of [exn]; a computation that may raise
      returns a [result].
    - [np.random.choice] draws from NumPy's module-level generator, which the
      class never seeds; the generator is a state threaded through the
      methods that reach it (monad [M]).
    - scikit-learn's [KernelPCA] and NumPy's [argsort] are collaborators whose
      code is not part of the program: they are interfaces ([KernelPCA],
      [ArgSort]); the general theorems hold for every implementation of the
      first and for every implementation of the second that meets NumPy's
      contract ([argsort_contract]).
    - [print] and [time.time] (progress messages) are not modelled. *)

From Stdlib Require Import String.
From Stdlib Require Import Reals Lra Lia ZArith Bool Arith List.
From Stdlib Require Import Permutation Sorted.
From Stdlib Require Import Reals.Zfloor.
Import ListNotations.

#[local] Open Scope R_scope.

(* ================================================================== *)
(** ** Exceptions, results and the state monad *)

Inductive exn : Type :=
| AssertionError (description : string)
| ValueError (message : string)
| LibraryError (message : string).

Inductive result (A : Type) : Type :=
| Ok (a : A)
| Raise (e : exn).

Arguments Ok {A} a.
Arguments Raise {A} e.

Definition is_ok {A} (r : result A) : bool :=
  match r with Ok _ => true | Raise _ => false end.

(** The module-level generator of [numpy.random]: the tape of its future raw
    outputs and the number already consumed. *)
Record RandomState : Type := mkRandomState {
  tape : nat -> nat;
  pos : nat
}.

Definition M (A : Type) : Type := RandomState -> result A * RandomState.

Definition ret {A} (a : A) : M A := fun g => (Ok a, g).

Definition bind {A B} (c : M A) (k : A -> M B) : M B :=
  fun g =>
    match c g with
    | (Ok a, g') => k a g'
    | (Raise e, g') => (Raise e, g')
    end.

Definition lift {A} (r : result A) : M A := fun g => (r, g).

Notation "x <- c ;; k" := (bind c (fun x => k))
  (at level 61, c at next level, right associativity).

Definition py_assert (cond : bool) (description : string) : result unit :=
  if cond then Ok tt else Raise (AssertionError description).

(** A list comprehension [[f(i) for i in xs]]: the first exception ends it. *)
Fixpoint list_comprehension {A B} (f : A -> result B) (xs : list A)
  : result (list B) :=
  match xs with
  | [] => Ok []
  | x :: xs' =>
      match f x with
      | Raise e => Raise e
      | Ok y =>
          match list_comprehension f xs' with
          | Raise e => Raise e
          | Ok ys => Ok (y :: ys)
          end
      end
  end.

(** A [for] loop whose body is [acc.append(f(i))]. *)
Fixpoint append_loop {A B} (f : A -> result B) (xs : list A) (acc : list B)
  : result (list B) :=
  match xs with
  | [] => Ok acc
  | x :: xs' =>
      match f x with
      | Raise e => Raise e
      | Ok y => append_loop f xs' (acc ++ [y])
      end
  end.

(* ================================================================== *)
(** ** NumPy arrays *)

Definition vector : Type := list R.
Definition matrix : Type := list vector.

(** [a.shape] of a 2-D array. *)
Definition shape (a : matrix) : nat * nat :=
  (length a, length (hd [] a)).

Definition shape_eqb (s t : nat * nat) : bool :=
  Nat.eqb (fst s) (fst t) && Nat.eqb (snd s) (snd t).

(** Python's [map(f, xs, ys)] and NumPy's elementwise operators on equal
    shapes: the result is as long as the shorter argument. *)
Fixpoint map2 {A B C} (f : A -> B -> C) (xs : list A) (ys : list B) : list C :=
  match xs, ys with
  | x :: xs', y :: ys' => f x y :: map2 f xs' ys'
  | _, _ => []
  end.

(** [a.sum()] of a 1-D array. *)
Definition np_sum (v : vector) : R := fold_right Rplus 0 v.

(** [np.cumsum]. *)
Fixpoint cumsum_from (acc : R) (v : vector) : vector :=
  match v with
  | [] => []
  | x :: v' => (acc + x) :: cumsum_from (acc + x) v'
  end.

Definition np_cumsum (v : vector) : vector := cumsum_from 0 v.

Definition vec_add (u v : vector) : vector := map2 Rplus u v.
Definition vec_sub (u v : vector) : vector := map2 Rminus u v.
Definition mat_sub (a b : matrix) : matrix := map2 vec_sub a b.

(** [np.sum(rows, axis=0)] of a list of equally long 1-D arrays.  On the empty
    list NumPy returns the 0-d array [0.0], which negation and [argsort] treat
    as an array with one element. *)
Definition np_sum_axis0 (rows : list vector) : vector :=
  match rows with
  | [] => [0]
  | r :: rows' => fold_left vec_add rows' r
  end.

Definition Reqb (x y : R) : bool :=
  if Req_EM_T x y then true else false.

Fixpoint vec_eqb (u v : vector) : bool :=
  match u, v with
  | [], [] => true
  | x :: u', y :: v' => Reqb x y && vec_eqb u' v'
  | _, _ => false
  end.

(** [np.all(a == b)] for two arrays of one shape. *)
Fixpoint np_all_eq (a b : matrix) : bool :=
  match a, b with
  | [], [] => true
  | r :: a', s :: b' => vec_eqb r s && np_all_eq a' b'
  | _, _ => false
  end.

(** [xs[:k]] for a Python integer [k]: a negative [k] counts from the end. *)
Definition py_slice_to {A} (xs : list A) (k : Z) : list A :=
  if (0 <=? k)%Z then firstn (Z.to_nat k) xs
  else firstn (Z.to_nat (Z.of_nat (length xs) + k)) xs.

(** [np.isin(range(n), indices).astype(int)]. *)
Definition np_isin_range (n : nat) (indices : list nat) : list Z :=
  map (fun i => if existsb (Nat.eqb i) indices then 1%Z else 0%Z) (seq 0 n).

(** [int(np.ceil(x))]. *)
Definition np_ceil (x : R) : Z := Zceil x.

(** [np.random.choice(range(n), size=2, replace=False)]: two distinct
    positions of [range(n)], every ordered pair being possible; a population
    smaller than the sample raises [ValueError] and consumes nothing. *)
Definition np_random_choice2 (n : nat) : M (nat * nat) :=
  fun g =>
    if (n <? 2)%nat
    then (Raise (ValueError "Cannot take a larger sample than population when 'replace=False'"), g)
    else
      let i := (tape g (pos g) mod n)%nat in
      let r := (tape g (S (pos g)) mod (n - 1))%nat in
      let j := if (r <? i)%nat then r else S r in
      (Ok (i, j), mkRandomState (tape g) (2 + pos g)).

(* ================================================================== *)
(** ** Collaborators: scikit-learn and NumPy's sort *)

(** Column [j] of a 2-D array. *)
Definition column (j : nat) (X : matrix) : vector :=
  map (fun row => nth j row 0) X.

(** [np.mean] and [np.var] (population variance) of a 1-D array. *)
Definition np_mean (v : vector) : R := np_sum v / INR (length v).

Definition np_var (v : vector) : R :=
  np_mean (map (fun x => Rsqr (x - np_mean v)) v).

(** scikit-learn's [_handle_zeros_in_scale]: a zero scale becomes 1. *)
Definition handle_zeros_in_scale (s : R) : R :=
  if Req_EM_T s 0 then 1 else s.

(** The attribute [scale_] of a fitted [StandardScaler], for one column. *)
Definition scale_ (v : vector) : R := handle_zeros_in_scale (sqrt (np_var v)).

(** Whether a nested list is a 2-D array: all rows have one length. *)
Definition rectangular (X : matrix) : bool :=
  forallb (fun row => Nat.eqb (length row) (length (hd [] X))) X.

(** [sklearn.preprocessing.StandardScaler().fit_transform], as scikit-learn
    documents it: every column is centred on its mean and divided by its
    population standard deviation; a column of zero variance is divided by 1
    instead.  An input that is not a 2-D array with at least one row and one
    column raises [ValueError]. *)
Definition StandardScaler_fit_transform (X : matrix) : result matrix :=
  if negb (rectangular X)
  then Raise (ValueError "setting an array element with a sequence")
  else if Nat.eqb (length X) 0
  then Raise (ValueError "Expected 2D array, got 1D array instead")
  else if Nat.eqb (length (hd [] X)) 0
  then Raise (ValueError "Found array with 0 feature(s)")
  else Ok (map (fun row =>
                  map (fun j => (nth j row 0 - np_mean (column j X))
                                / scale_ (column j X))
                      (seq 0 (length row)))
               X).

Inductive kernel_name : Type :=
| linear | poly | rbf | sigmoid | cosine | precomputed.

(** The keyword arguments the program passes to [KernelPCA];
    [fit_inverse_transform=True] and [n_jobs=-1] are the same in every call. *)
Record KernelPCA_args : Type := mkKernelPCA_args {
  n_components : option nat;
  kpca_kernel : kernel_name;
  kpca_gamma : option R;
  kpca_random_state : Z
}.

(** What the program asks of scikit-learn's [KernelPCA]: the attribute
    [lambdas_] after [fit_transform], and [inverse_transform] of the result of
    [fit_transform].  With its arguments fixed (the seed among them) each is a
    function of the data; either may raise. *)
Class KernelPCA : Type := {
  fit_lambdas : KernelPCA_args -> matrix -> result vector;
  fit_inverse_transform : KernelPCA_args -> matrix -> result matrix
}.

(** [np.argsort] with its default [kind], as a function on 1-D arrays. *)
Class ArgSort : Type := {
  np_argsort : vector -> list nat
}.

(** What NumPy promises of [np.argsort]: the result is a permutation of the
    positions that puts the values in non-decreasing order.  NumPy does not
    promise stability for the default kind, so nothing is said about the
    order of positions that hold equal values. *)
Definition argsort_contract (sorter : ArgSort) : Prop :=
  forall v,
    Permutation (np_argsort v) (seq 0 (length v))
    /\ Sorted Rle (map (fun i => nth i v 0) (np_argsort v)).

(* ================================================================== *)
(** ** The class [KPCA_Recon_Error] *)

Record KPCA_Recon_Error : Type := mkKPCA_Recon_Error {
  self_matrix : matrix;
  self_contamination : R;
  self_kernel : kernel_name;
  self_gamma : option R;
  self_verbose : Z;
  self_random_state : Z
}.

Definition default_contamination : R := 1 / 100.
Definition default_kernel : kernel_name := rbf.
Definition default_verbose : Z := 3%Z.
Definition default_gamma : option R := None.
Definition default_random_state : Z := 2018%Z.

(** [__init__]. *)
Definition init (raw : matrix) (contamination : R) (kernel : kernel_name)
    (verbose : Z) (gamma : option R) (random_state : Z)
  : result KPCA_Recon_Error :=
  match StandardScaler_fit_transform raw with
  | Raise e => Raise e
  | Ok m => Ok (mkKPCA_Recon_Error m contamination kernel gamma verbose random_state)
  end.

Definition kpca_args (self : KPCA_Recon_Error) (k : option nat) : KernelPCA_args :=
  mkKernelPCA_args k (self_kernel self) (self_gamma self) (self_random_state self).

Definition assert_description : string :=
  "The shape of the reconstruction matrix should be equal to that of the initial matrix.".

Definition description : string :=
  "The reconstruction matrices generated by different number of principal components are different.".

(** [compute_vector_length]. *)
Definition compute_vector_length (v : vector) : R :=
  let square_sum := np_sum (map Rsqr v) in
  sqrt square_sum.

Section Methods.

Context {engine : KernelPCA}.

(** [get_ev_ratio]. *)
Definition get_ev_ratio (self : KPCA_Recon_Error) : result vector :=
  match fit_lambdas (kpca_args self None) (self_matrix self) with
  | Raise e => Raise e
  | Ok lambdas_ =>
      Ok (map (fun s => s / np_sum lambdas_) (np_cumsum lambdas_))
  end.

(** The inner function [reconstruct] of [reconstruct_matrix]. *)
Definition reconstruct (self : KPCA_Recon_Error) (recon_pc_num : nat)
  : result matrix :=
  match fit_inverse_transform (kpca_args self (Some recon_pc_num))
                              (self_matrix self) with
  | Raise e => Raise e
  | Ok recon_matrix =>
      match py_assert (shape_eqb (shape recon_matrix) (shape (self_matrix self)))
                      assert_description with
      | Raise e => Raise e
      | Ok _ => Ok recon_matrix
      end
  end.

(** The series of reconstructions, by the comprehension when [verbose] is
    falsy and by the loop otherwise. *)
Definition recon_series (self : KPCA_Recon_Error) : result (list matrix) :=
  let cols_num := snd (shape (self_matrix self)) in
  if Z.eqb (self_verbose self) 0
  then list_comprehension (reconstruct self) (seq 1 cols_num)
  else append_loop (reconstruct self) (seq 1 cols_num) [].

(** [reconstruct_matrix]. *)
Definition reconstruct_matrix (self : KPCA_Recon_Error) : M (list matrix) :=
  let cols_num := snd (shape (self_matrix self)) in
  recon_matrices <- lift (recon_series self) ;;
  ij <- np_random_choice2 cols_num ;;
  _ <- lift (py_assert
               (negb (np_all_eq (nth (fst ij) recon_matrices [])
                                (nth (snd ij) recon_matrices [])))
               description) ;;
  ret recon_matrices.

(** The inner function [compute_sub_score] of [get_anomaly_score]. *)
Definition compute_sub_score (self : KPCA_Recon_Error)
    (recon_matrix : matrix) (ev : R) : vector :=
  let delta_matrix := mat_sub (self_matrix self) recon_matrix in
  map (fun len => len * ev) (map compute_vector_length delta_matrix).

(** The local [anomaly_scores] of [get_anomaly_score]. *)
Definition anomaly_scores (self : KPCA_Recon_Error)
    (reconstruct_matrices : list matrix) (ev_ratio : vector) : list vector :=
  map2 (compute_sub_score self) reconstruct_matrices ev_ratio.

(** [get_anomaly_score]. *)
Definition get_anomaly_score (self : KPCA_Recon_Error) : M vector :=
  ev_ratio <- lift (get_ev_ratio self) ;;
  reconstruct_matrices <- reconstruct_matrix self ;;
  ret (np_sum_axis0 (anomaly_scores self reconstruct_matrices ev_ratio)).

Context {sorter : ArgSort}.

(** [get_anomaly_indices]. *)
Definition get_anomaly_indices (self : KPCA_Recon_Error) : M (list nat) :=
  scores <- get_anomaly_score self ;;
  let indices_desc := np_argsort (map Ropp scores) in
  let anomaly_num :=
    np_ceil (INR (length (self_matrix self)) * self_contamination self) in
  ret (py_slice_to indices_desc anomaly_num).

(** [predict]. *)
Definition predict (self : KPCA_Recon_Error) : M (list Z) :=
  anomaly_indices <- get_anomaly_indices self ;;
  ret (np_isin_range (length (self_matrix self)) anomaly_indices).

End Methods.

(* ================================================================== *)
(** ** Quantities the properties are stated with *)

(** The cumulative variance ratio at rank [k] (counted from 1): the sum of the
    first [k] eigenvalues over the sum of all of them. *)
Definition cumulative_variance_ratio (lambdas : vector) (k : nat) : R :=
  np_sum (firstn k lambdas) / np_sum lambdas.

(** The Euclidean norm of row [i] of the residual of a reconstruction. *)
Definition residual_norm (self : KPCA_Recon_Error) (recon : matrix) (i : nat) : R :=
  compute_vector_length (vec_sub (nth i (self_matrix self) []) (nth i recon [])).

(** The sum over the ranks 1 to [terms] of the cumulative variance ratio at
    the rank times the residual norm of row [i] under the reconstruction of
    that rank. *)
Definition weighted_residual_sum (self : KPCA_Recon_Error) (lambdas : vector)
    (recons : list matrix) (i : nat) (terms : nat) : R :=
  np_sum (map (fun k => cumulative_variance_ratio lambdas (S k)
                        * residual_norm self (nth k recons []) i)
              (seq 0 terms)).

(** The ranking of the rows: [np.argsort(-scores)]. *)
Definition ranking {sorter : ArgSort} (scores : vector) : list nat :=
  np_argsort (map Ropp scores).

(** The same object with another contamination. *)
Definition with_contamination (self : KPCA_Recon_Error) (c : R) : KPCA_Recon_Error :=
  mkKPCA_Recon_Error (self_matrix self) c (self_kernel self) (self_gamma self)
                     (self_verbose self) (self_random_state self).

(** The generator after one draw of two positions. *)
Definition drawn (g : RandomState) : RandomState :=
  mkRandomState (tape g) (2 + pos g).

(* ================================================================== *)
(** ** Two sorts that meet the contract of [np.argsort] *)

(** Insertion of position [i] into a list of positions ordered by their
    values in [v]; [before x y] decides whether a position holding [x] goes in
    front of one holding [y]. *)
Fixpoint insert_position (before : R -> R -> bool) (v : vector) (i : nat)
    (l : list nat) : list nat :=
  match l with
  | [] => [i]
  | j :: l' =>
      if before (nth i v 0) (nth j v 0) then i :: j :: l'
      else j :: insert_position before v i l'
  end.

Definition argsort_by (before : R -> R -> bool) (v : vector) : list nat :=
  fold_right (insert_position before v) [] (seq 0 (length v)).

Definition Rleb (x y : R) : bool := if Rle_dec x y then true else false.

(** A stable sort: positions holding equal values stay in ascending order. *)
Definition stable_argsort : ArgSort := {| np_argsort := argsort_by Rleb |}.


(* ================================================================== *)
(** ** Sample collaborators and sample data *)

(** The first [k] columns of [X], the others set to zero. *)
Definition keep_columns (k : nat) (X : matrix) : matrix :=
  map (fun row => firstn k row ++ repeat 0 (length row - k)) X.

(** A stand-in for scikit-learn's [KernelPCA] with the two traits of it that
    matter to the program.  The full decomposition of [n] samples returns the
    non-zero eigenvalues of the centred [n] by [n] kernel matrix, here [n - 1]
    of them in decreasing order, whatever the number of columns; and a fit
    with [n_components = k] never uses more than [n] components (scikit-learn
    takes [min(n_samples, n_components)]).  The rank-[k] reconstruction keeps
    the first [k] columns, as exact linear PCA does on data whose columns are
    orthogonal and ordered by norm. *)
Definition capped_engine : KernelPCA := {|
  fit_lambdas := fun _ X => Ok (map INR (rev (seq 1 (length X - 1))));
  fit_inverse_transform := fun args X =>
    match n_components args with
    | Some k => Ok (keep_columns (Nat.min k (length X)) X)
    | None => Ok X
    end
|}.

(** An object whose standardized matrix is [X], every other argument of
    [__init__] but the contamination left at its default. *)
Definition sample (X : matrix) (contamination : R) : KPCA_Recon_Error :=
  mkKPCA_Recon_Error X contamination default_kernel default_gamma
                     default_verbose default_random_state.

(** A generator whose next raw outputs are [outs]. *)
Definition generator (outs : list nat) : RandomState :=
  mkRandomState (fun k => nth k outs 0%nat) 0.

(** Four samples, three features; already standardized (every column has
    mean 0 and variance 1). *)
Definition tall_matrix : matrix :=
  [ [ 1;  1;  1];
    [ 1; -1; -1];
    [-1;  1; -1];
    [-1; -1;  1] ].

(** The reconstructions of [tall_matrix] by [capped_engine], ranks 1 to 3. *)
Definition tall_series : list matrix :=
  [keep_columns 1 tall_matrix; keep_columns 2 tall_matrix; tall_matrix].

(** The score of every row of [tall_matrix] under [capped_engine]. *)
Definition tall_score : R := sqrt 2 / 2 + 5 / 6.

(** Four samples, five features; already standardized. *)
Definition wide_matrix : matrix :=
  [ [ 1;  1;  1; -1; -1];
    [ 1; -1; -1; -1;  1];
    [-1;  1; -1;  1; -1];
    [-1; -1;  1;  1;  1] ].

(** The reconstructions of [wide_matrix] by [capped_engine], ranks 1 to 5. *)
Definition wide_series : list matrix :=
  [keep_columns 1 wide_matrix; keep_columns 2 wide_matrix;
   keep_columns 3 wide_matrix; keep_columns 4 wide_matrix;
   keep_columns 4 wide_matrix].

(** The spectrum [capped_engine] returns for four samples. *)
Definition sample_lambdas : vector := [3; 2; 1].

(** Four samples, two features; already standardized. *)
Definition narrow_matrix : matrix :=
  [ [ 1;  1];
    [ 1; -1];
    [-1;  1];
    [-1; -1] ].

(** One feature, two samples; already standardized. *)
Definition column_matrix : matrix := [[1]; [-1]].

(** Two samples whose first feature is constant. *)
Definition constant_column_matrix : matrix := [[1; 2]; [1; 3]].

(* ================================================================== *)
(** ** Further quantities and sample collaborators *)

(** The same object with another [verbose]. *)
Definition with_verbose (self : KPCA_Recon_Error) (v : Z) : KPCA_Recon_Error :=
  mkKPCA_Recon_Error (self_matrix self) (self_contamination self)
                     (self_kernel self) (self_gamma self) v
                     (self_random_state self).

(** The sum over the ranks 1 to [terms] of the residual norms of row [i],
    without weights. *)
Definition residual_sum (self : KPCA_Recon_Error) (recons : list matrix)
    (i : nat) (terms : nat) : R :=
  np_sum (map (fun k => residual_norm self (nth k recons []) i) (seq 0 terms)).

(** The residual of row [i] under a reconstruction. *)
Definition residual_row (self : KPCA_Recon_Error) (recon : matrix) (i : nat)
  : vector :=
  vec_sub (nth i (self_matrix self) []) (nth i recon []).

(** The value of the expression [indices_desc[:anomaly_num]] in
    [get_anomaly_indices] for a given score vector. *)
Definition selected {sorter : ArgSort} (self : KPCA_Recon_Error)
    (scores : vector) : list nat :=
  py_slice_to (ranking scores)
    (np_ceil (INR (length (self_matrix self)) * self_contamination self)).

(** A decomposition whose eigenvalues are those of [E] multiplied by [c], with
    the reconstructions of [E]. *)
Definition scaled_engine (c : R) (E : KernelPCA) : KernelPCA := {|
  fit_lambdas := fun args X =>
    match fit_lambdas (KernelPCA := E) args X with
    | Ok lambdas_ => Ok (map (Rmult c) lambdas_)
    | Raise e => Raise e
    end;
  fit_inverse_transform := fit_inverse_transform (KernelPCA := E)
|}.

(** A decomposition that cannot compute the spectrum. *)
Definition spectrum_failing_engine : KernelPCA := {|
  fit_lambdas := fun _ _ => Raise (LibraryError "the kernel matrix cannot be decomposed");
  fit_inverse_transform := fit_inverse_transform (KernelPCA := capped_engine)
|}.

(** A decomposition whose rank-2 reconstruction lacks the first row. *)
Definition misshapen_engine : KernelPCA := {|
  fit_lambdas := fit_lambdas (KernelPCA := capped_engine);
  fit_inverse_transform := fun args X =>
    match n_components args with
    | Some 2%nat => Ok (tl X)
    | _ => fit_inverse_transform (KernelPCA := capped_engine) args X
    end
|}.

(** The reconstructions of [narrow_matrix] by [capped_engine], ranks 1 and 2. *)
Definition narrow_series : list matrix :=
  [keep_columns 1 narrow_matrix; narrow_matrix].

(* ================================================================== *)
(** ** Control flow: comprehension, loop, random draw, assertion *)

Lemma append_loop_comprehension {A B} (f : A -> result B) xs acc :
  append_loop f xs acc =
  match list_comprehension f xs with
  | Ok ys => Ok (acc ++ ys)
  | Raise e => Raise e
  end.
Proof.
  revert acc; induction xs as [|x xs IH]; intros acc; simpl.
  - now rewrite app_nil_r.
  - destruct (f x) as [y|e]; [|reflexivity].
    rewrite IH. destruct (list_comprehension f xs); [|reflexivity].
    now rewrite <- app_assoc.
Qed.

Lemma list_comprehension_length {A B} (f : A -> result B) xs ys :
  list_comprehension f xs = Ok ys -> length ys = length xs.
Proof.
  revert ys; induction xs as [|x xs IH]; intros ys; simpl.
  - intros H; injection H as <-; reflexivity.
  - destruct (f x) as [y|e]; [|discriminate].
    destruct (list_comprehension f xs) as [zs|e]; [|discriminate].
    intros H; injection H as <-; simpl. now rewrite (IH zs).
Qed.

Lemma list_comprehension_nth {A B} (f : A -> result B) xs ys dx dy k :
  list_comprehension f xs = Ok ys -> (k < length xs)%nat ->
  f (nth k xs dx) = Ok (nth k ys dy).
Proof.
  revert ys k; induction xs as [|x xs IH]; intros ys k; simpl.
  - intros _ Hk; lia.
  - destruct (f x) as [y|e] eqn:Hx; [|discriminate].
    destruct (list_comprehension f xs) as [zs|e]; [|discriminate].
    intros H Hk; injection H as <-.
    destruct k as [|k]; simpl; [assumption|].
    apply IH; [reflexivity|lia].
Qed.

Lemma list_comprehension_all_ok {A B} (f : A -> result B) xs :
  (forall x, In x xs -> exists y, f x = Ok y) ->
  exists ys, list_comprehension f xs = Ok ys.
Proof.
  induction xs as [|x xs IH]; intros H; simpl.
  - now exists [].
  - destruct (H x (or_introl eq_refl)) as [y ->].
    destruct IH as [ys ->]; [intros z Hz; apply H; now right|].
    now exists (y :: ys).
Qed.

Section ControlFlow.

Context {engine : KernelPCA}.

(** The loop taken when [verbose] is truthy builds the same series as the
    comprehension. *)
Lemma recon_series_comprehension self :
  recon_series self =
  list_comprehension (reconstruct self) (seq 1 (snd (shape (self_matrix self)))).
Proof.
  unfold recon_series. destruct (Z.eqb (self_verbose self) 0); [reflexivity|].
  rewrite append_loop_comprehension.
  now destruct (list_comprehension _ _).
Qed.

Lemma recon_series_length self ms :
  recon_series self = Ok ms ->
  length ms = snd (shape (self_matrix self)).
Proof.
  rewrite recon_series_comprehension. intros H.
  apply list_comprehension_length in H. now rewrite H, length_seq.
Qed.

Lemma recon_series_nth self ms k :
  recon_series self = Ok ms -> (k < snd (shape (self_matrix self)))%nat ->
  reconstruct self (S k) = Ok (nth k ms []).
Proof.
  rewrite recon_series_comprehension. intros H Hk.
  pose proof (list_comprehension_nth _ _ _ 0%nat [] k H) as Hn.
  rewrite length_seq, seq_nth in Hn by assumption.
  now apply Hn.
Qed.

Lemma reconstruct_shape self k m :
  reconstruct self k = Ok m -> shape m = shape (self_matrix self).
Proof.
  unfold reconstruct, py_assert, shape_eqb.
  destruct (fit_inverse_transform _ _) as [r|e]; [|discriminate].
  destruct (Nat.eqb (fst (shape r)) _) eqn:E1; [|discriminate].
  destruct (Nat.eqb (snd (shape r)) _) eqn:E2; [|discriminate].
  simpl. intros H; injection H as <-.
  apply Nat.eqb_eq in E1, E2.
  destruct (shape r), (shape (self_matrix self)); simpl in *; congruence.
Qed.

End ControlFlow.

Lemma np_random_choice2_small n g :
  (n < 2)%nat -> exists msg, np_random_choice2 n g = (Raise (ValueError msg), g).
Proof.
  intros H. unfold np_random_choice2.
  apply Nat.ltb_lt in H. rewrite H. eauto.
Qed.

Lemma np_random_choice2_distinct n g :
  (2 <= n)%nat ->
  exists i j, np_random_choice2 n g = (Ok (i, j), mkRandomState (tape g) (2 + pos g))
              /\ (i < n)%nat /\ (j < n)%nat /\ i <> j.
Proof.
  intros H. unfold np_random_choice2.
  destruct (Nat.ltb_spec n 2) as [H'|_]; [lia|].
  eexists _, _; split; [reflexivity|].
  assert (Hi : (tape g (pos g) mod n < n)%nat) by (apply Nat.mod_upper_bound; lia).
  assert (Hr : (tape g (S (pos g)) mod (n - 1) < n - 1)%nat)
    by (apply Nat.mod_upper_bound; lia).
  destruct (Nat.ltb_spec (tape g (S (pos g)) mod (n - 1)) (tape g (pos g) mod n));
    repeat split; lia.
Qed.

(** Every ordered pair of distinct positions is a possible draw. *)
Lemma np_random_choice2_any n i j :
  (i < n)%nat -> (j < n)%nat -> i <> j ->
  exists g, np_random_choice2 n g = (Ok (i, j), drawn g).
Proof.
  intros Hi Hj Hij.
  exists (generator [i; if (j <? i)%nat then j else Nat.pred j]).
  unfold np_random_choice2, drawn, generator. simpl.
  destruct (Nat.ltb_spec n 2) as [H|_]; [lia|].
  rewrite (Nat.mod_small i n) by assumption.
  destruct (Nat.ltb_spec j i) as [Hlt|Hge].
  - rewrite (Nat.mod_small j (n - 1)) by lia.
    destruct (Nat.ltb_spec j i); [reflexivity|lia].
  - rewrite (Nat.mod_small (Nat.pred j) (n - 1)) by lia.
    destruct (Nat.ltb_spec (Nat.pred j) i); [lia|].
    repeat f_equal. lia.
Qed.

Lemma Reqb_true x y : Reqb x y = true <-> x = y.
Proof. unfold Reqb; destruct (Req_EM_T x y); split; congruence. Qed.

Lemma vec_eqb_true u v : vec_eqb u v = true <-> u = v.
Proof.
  revert v; induction u as [|x u IH]; intros [|y v]; simpl;
    try (split; congruence).
  rewrite andb_true_iff, Reqb_true, IH. split.
  - intros [-> ->]; reflexivity.
  - intros H; injection H; auto.
Qed.

Lemma np_all_eq_true a b : np_all_eq a b = true <-> a = b.
Proof.
  revert b; induction a as [|r a IH]; intros [|s b]; simpl;
    try (split; congruence).
  rewrite andb_true_iff, vec_eqb_true, IH. split.
  - intros [-> ->]; reflexivity.
  - intros H; injection H; auto.
Qed.

Lemma np_all_eq_false_at (a b : matrix) (i j : nat) :
  nth j (nth i a []) 0 <> nth j (nth i b []) 0 -> np_all_eq a b = false.
Proof.
  intros H. destruct (np_all_eq a b) eqn:E; [|reflexivity].
  apply np_all_eq_true in E. now subst b.
Qed.

(* ================================================================== *)
(** ** The reconstruction series and its sanity check *)

Section ReconstructMatrix.

Context {engine : KernelPCA}.

Lemma reconstruct_matrix_run self g :
  reconstruct_matrix self g =
  match recon_series self with
  | Raise e => (Raise e, g)
  | Ok ms =>
      match np_random_choice2 (snd (shape (self_matrix self))) g with
      | (Raise e, g') => (Raise e, g')
      | (Ok (i, j), g') =>
          if np_all_eq (nth i ms []) (nth j ms [])
          then (Raise (AssertionError description), g')
          else (Ok ms, g')
      end
  end.
Proof.
  unfold reconstruct_matrix, bind, lift, ret, py_assert.
  destruct (recon_series self) as [ms|e]; [|reflexivity].
  destruct (np_random_choice2 _ g) as [[[i j]|e] g']; [|reflexivity].
  simpl. now destruct (np_all_eq _ _).
Qed.

Lemma reconstruct_matrix_ok self g ms g' :
  reconstruct_matrix self g = (Ok ms, g') ->
  recon_series self = Ok ms /\ (2 <= snd (shape (self_matrix self)))%nat
  /\ g' = mkRandomState (tape g) (2 + pos g).
Proof.
  rewrite reconstruct_matrix_run.
  destruct (recon_series self) as [ms0|e]; [|discriminate].
  destruct (le_lt_dec 2 (snd (shape (self_matrix self)))) as [Hd|Hd].
  - destruct (np_random_choice2_distinct _ g Hd) as (i & j & -> & _).
    destruct (np_all_eq _ _); [discriminate|].
    intros H; injection H as <- <-. auto.
  - destruct (np_random_choice2_small _ g Hd) as (msg & ->). discriminate.
Qed.

(** A matrix with a single column never gets past [reconstruct_matrix]. *)
Lemma reconstruct_matrix_one_column self g :
  snd (shape (self_matrix self)) = 1%nat ->
  exists e g', reconstruct_matrix self g = (Raise e, g').
Proof.
  intros Hd. rewrite reconstruct_matrix_run.
  destruct (recon_series self) as [ms|e]; [|eauto].
  destruct (np_random_choice2_small (snd (shape (self_matrix self))) g)
    as (msg & ->); [lia|eauto].
Qed.

End ReconstructMatrix.

(* ================================================================== *)
(** ** The cumulative variance ratio *)

Lemma cumsum_from_length acc v : length (cumsum_from acc v) = length v.
Proof. revert acc; induction v; intros; simpl; auto. Qed.

Lemma cumsum_from_nth acc v k :
  (k < length v)%nat ->
  nth k (cumsum_from acc v) 0 = acc + np_sum (firstn (S k) v).
Proof.
  revert acc k; induction v as [|x v IH]; intros acc k Hk; simpl in *; [lia|].
  destruct k as [|k].
  - rewrite firstn_O. simpl. lra.
  - rewrite IH by lia. simpl. lra.
Qed.

Lemma np_sum_pos v : Forall (Rlt 0) v -> v <> [] -> 0 < np_sum v.
Proof.
  induction 1 as [|x v Hx Hv IH]; intros Hne; [congruence|].
  simpl. destruct v as [|y v]; simpl in *; [lra|].
  assert (0 < y + np_sum v) by (apply IH; discriminate). lra.
Qed.

Lemma np_sum_nonneg v : Forall (Rle 0) v -> 0 <= np_sum v.
Proof. induction 1; simpl; lra. Qed.

Lemma cumsum_from_sorted acc v :
  Forall (Rlt 0) v ->
  StronglySorted Rle (cumsum_from acc v)
  /\ Forall (fun s => acc < s <= acc + np_sum v) (cumsum_from acc v).
Proof.
  intros Hv; revert acc; induction Hv as [|x v Hx Hv IH]; intros acc; simpl.
  - split; constructor.
  - destruct (IH (acc + x)) as [Hs Hb].
    assert (H0 : 0 <= np_sum v)
      by (apply np_sum_nonneg; eapply Forall_impl; [|exact Hv]; intros; simpl in *; lra).
    split.
    + constructor; [assumption|].
      eapply Forall_impl; [|exact Hb]. intros s Hs'; simpl in *; lra.
    + constructor; [lra|].
      eapply Forall_impl; [|exact Hb]. intros s Hs'; simpl in *; lra.
Qed.

Lemma cumsum_from_last acc v :
  v <> [] -> last (cumsum_from acc v) 0 = acc + np_sum v.
Proof.
  revert acc; induction v as [|x v IH]; intros acc Hne; [congruence|].
  destruct v as [|y v]; [simpl; lra|].
  change (cumsum_from acc (x :: y :: v))
    with ((acc + x) :: cumsum_from (acc + x) (y :: v)).
  assert (E : cumsum_from (acc + x) (y :: v)
              = (acc + x + y) :: cumsum_from (acc + x + y) v) by reflexivity.
  rewrite E at 1. rewrite <- E.
  replace (last ((acc + x) :: cumsum_from (acc + x) (y :: v)) 0)
    with (last (cumsum_from (acc + x) (y :: v)) 0)
    by (rewrite E; reflexivity).
  rewrite IH by discriminate. simpl. lra.
Qed.

Lemma StronglySorted_map_div (T : R) (v : vector) :
  0 < T -> StronglySorted Rle v ->
  StronglySorted Rle (map (fun s => s / T) v).
Proof.
  intros HT; induction 1 as [|x v Hs IH Hx]; simpl; constructor; auto.
  rewrite Forall_map. eapply Forall_impl; [|exact Hx].
  intros y Hy; simpl in *. unfold Rdiv.
  apply Rmult_le_compat_r; [|assumption].
  left; now apply Rinv_0_lt_compat.
Qed.

Lemma last_map_nonempty {A B} (f : A -> B) (l : list A) (a : A) (b : B) :
  l <> [] -> last (map f l) b = f (last l a).
Proof.
  induction l as [|x l IH]; intros Hne; [congruence|].
  destruct l as [|y l]; [reflexivity|].
  change (last (map f (y :: l)) b = f (last (y :: l) a)).
  apply IH; discriminate.
Qed.

Lemma nth_map_lt {A B} (f : A -> B) (l : list A) (k : nat) (a : A) (b : B) :
  (k < length l)%nat -> nth k (map f l) b = f (nth k l a).
Proof.
  revert k; induction l as [|x l IH]; intros k Hk; simpl in *; [lia|].
  destruct k; [reflexivity|]. apply IH; lia.
Qed.

Section EvRatio.

Context {engine : KernelPCA}.

Lemma get_ev_ratio_ok self lambdas :
  fit_lambdas (kpca_args self None) (self_matrix self) = Ok lambdas ->
  get_ev_ratio self = Ok (map (fun s => s / np_sum lambdas) (np_cumsum lambdas)).
Proof. intros H; unfold get_ev_ratio; now rewrite H. Qed.

Lemma get_ev_ratio_inv self ratios :
  get_ev_ratio self = Ok ratios ->
  exists lambdas,
    fit_lambdas (kpca_args self None) (self_matrix self) = Ok lambdas
    /\ ratios = map (fun s => s / np_sum lambdas) (np_cumsum lambdas).
Proof.
  unfold get_ev_ratio.
  destruct (fit_lambdas _ _) as [l|e]; [|discriminate].
  intros H; injection H as <-. eauto.
Qed.

End EvRatio.

Lemma ev_ratio_length lambdas :
  length (map (fun s => s / np_sum lambdas) (np_cumsum lambdas)) = length lambdas.
Proof. unfold np_cumsum. now rewrite length_map, cumsum_from_length. Qed.

Lemma ev_ratio_nth lambdas k :
  (k < length lambdas)%nat ->
  nth k (map (fun s => s / np_sum lambdas) (np_cumsum lambdas)) 0
  = cumulative_variance_ratio lambdas (S k).
Proof.
  intros Hk. unfold cumulative_variance_ratio, np_cumsum.
  rewrite (nth_map_lt _ _ _ 0) by now rewrite cumsum_from_length.
  rewrite cumsum_from_nth by assumption.
  f_equal. lra.
Qed.

Lemma ev_ratio_properties lambdas :
  Forall (Rlt 0) lambdas -> lambdas <> [] ->
  let ratios := map (fun s => s / np_sum lambdas) (np_cumsum lambdas) in
  Forall (fun r => 0 < r <= 1) ratios
  /\ StronglySorted Rle ratios
  /\ last ratios 0 = 1.
Proof.
  intros Hpos Hne ratios. subst ratios.
  pose proof (np_sum_pos _ Hpos Hne) as HT.
  destruct (cumsum_from_sorted 0 lambdas Hpos) as [Hs Hb].
  repeat split.
  - unfold np_cumsum. rewrite Forall_map.
    eapply Forall_impl; [|exact Hb]. intros s [H1 H2]; simpl in *.
    rewrite Rplus_0_l in H2. split.
    + now apply Rdiv_lt_0_compat.
    + apply (Rmult_le_reg_r (np_sum lambdas)); [assumption|].
      unfold Rdiv. rewrite Rmult_assoc, Rinv_l by lra. lra.
  - now apply StronglySorted_map_div.
  - unfold np_cumsum. rewrite (last_map_nonempty _ _ 0).
    2:{ destruct lambdas; [congruence|discriminate]. }
    rewrite cumsum_from_last by assumption.
    rewrite Rplus_0_l. unfold Rdiv. apply Rinv_r. lra.
Qed.

(* ================================================================== *)
(** ** Score aggregation *)

Lemma map2_length {A B C} (f : A -> B -> C) xs ys :
  length (map2 f xs ys) = Nat.min (length xs) (length ys).
Proof.
  revert ys; induction xs as [|x xs IH]; intros [|y ys]; simpl; auto.
Qed.

Lemma map2_nth {A B C} (f : A -> B -> C) xs ys k dx dy dz :
  (k < length xs)%nat -> (k < length ys)%nat ->
  nth k (map2 f xs ys) dz = f (nth k xs dx) (nth k ys dy).
Proof.
  revert ys k; induction xs as [|x xs IH]; intros [|y ys] k Hx Hy;
    simpl in *; try lia.
  destruct k; [reflexivity|]. apply IH; lia.
Qed.

Lemma list_as_map_nth {A} (l : list A) (d : A) :
  l = map (fun k => nth k l d) (seq 0 (length l)).
Proof.
  apply (nth_ext _ _ d d).
  - now rewrite length_map, length_seq.
  - intros k Hk.
    rewrite (nth_map_lt _ _ _ 0%nat) by now rewrite length_seq.
    now rewrite seq_nth.
Qed.

Lemma vec_add_length u v :
  length (vec_add u v) = Nat.min (length u) (length v).
Proof. apply map2_length. Qed.

Lemma fold_left_vec_add_length (n : nat) rows r :
  Forall (fun v => length v = n) rows -> length r = n ->
  length (fold_left vec_add rows r) = n.
Proof.
  intros H; revert r; induction H as [|v rows Hv _ IH]; intros r Hr; simpl.
  - assumption.
  - apply IH. rewrite vec_add_length. lia.
Qed.

Lemma fold_left_vec_add_nth (n : nat) rows r i :
  Forall (fun v => length v = n) rows -> length r = n -> (i < n)%nat ->
  nth i (fold_left vec_add rows r) 0
  = nth i r 0 + np_sum (map (fun v => nth i v 0) rows).
Proof.
  intros H; revert r; induction H as [|v rows Hv _ IH]; intros r Hr Hi; simpl.
  - lra.
  - rewrite IH; [|rewrite vec_add_length; lia|assumption].
    unfold vec_add. rewrite (map2_nth _ _ _ _ 0 0) by lia. lra.
Qed.

Lemma np_sum_axis0_nth (n : nat) rows i :
  Forall (fun v => length v = n) rows -> (i < n)%nat ->
  nth i (np_sum_axis0 rows) 0 = np_sum (map (fun v => nth i v 0) rows).
Proof.
  intros H Hi. destruct rows as [|r rows]; simpl.
  - destruct i as [|[|i]]; reflexivity.
  - inversion H; subst. now apply fold_left_vec_add_nth with (n := length r).
Qed.

Lemma np_sum_axis0_length (n : nat) rows :
  Forall (fun v => length v = n) rows -> rows <> [] ->
  length (np_sum_axis0 rows) = n.
Proof.
  intros H Hne. destruct rows as [|r rows]; [congruence|].
  inversion H; subst. now apply fold_left_vec_add_length.
Qed.

Lemma np_sum_axis0_nonneg rows :
  Forall (Forall (Rle 0)) rows -> Forall (Rle 0) (np_sum_axis0 rows).
Proof.
  intros H. destruct rows as [|r rows]; simpl.
  - constructor; [lra|constructor].
  - inversion H as [|? ? Hr Hrows]; subst. clear H.
    revert r Hr; induction Hrows as [|v rows Hv _ IH]; intros r Hr; simpl.
    + assumption.
    + apply IH. clear IH. unfold vec_add.
      revert v Hv; induction Hr as [|x r Hx _ IHr]; intros v Hv; simpl.
      * constructor.
      * destruct Hv as [|y v Hy Hv]; constructor; [lra|auto].
Qed.

Lemma compute_vector_length_nonneg v : 0 <= compute_vector_length v.
Proof. apply sqrt_pos. Qed.

Section Score.

Context {engine : KernelPCA}.

Lemma compute_sub_score_length self recon ev :
  length (compute_sub_score self recon ev)
  = Nat.min (length (self_matrix self)) (length recon).
Proof.
  unfold compute_sub_score, mat_sub. cbv zeta.
  now rewrite !length_map, map2_length.
Qed.

Lemma compute_sub_score_nth self recon ev i :
  (i < length (self_matrix self))%nat -> (i < length recon)%nat ->
  nth i (compute_sub_score self recon ev) 0 = residual_norm self recon i * ev.
Proof.
  intros H1 H2. unfold compute_sub_score, mat_sub, residual_norm. cbv zeta.
  rewrite (nth_map_lt _ _ _ 0) by (rewrite length_map, map2_length; lia).
  rewrite (nth_map_lt compute_vector_length _ _ (@nil R))
    by (rewrite map2_length; lia).
  now rewrite (map2_nth vec_sub _ _ _ (@nil R) (@nil R)) by assumption.
Qed.

Lemma compute_sub_score_nonneg self recon ev :
  0 <= ev -> Forall (Rle 0) (compute_sub_score self recon ev).
Proof.
  intros Hev. unfold compute_sub_score. cbv zeta. rewrite !Forall_map.
  apply Forall_forall. intros v _.
  apply Rmult_le_pos; [apply compute_vector_length_nonneg|assumption].
Qed.

Lemma get_anomaly_score_run self g :
  get_anomaly_score self g =
  match get_ev_ratio self with
  | Raise e => (Raise e, g)
  | Ok ev_ratio =>
      match reconstruct_matrix self g with
      | (Raise e, g') => (Raise e, g')
      | (Ok ms, g') => (Ok (np_sum_axis0 (anomaly_scores self ms ev_ratio)), g')
      end
  end.
Proof.
  unfold get_anomaly_score, bind, lift, ret.
  destruct (get_ev_ratio self); [|reflexivity].
  now destruct (reconstruct_matrix self g) as [[ms|e] g'].
Qed.

Lemma get_anomaly_score_ok self g scores g' :
  get_anomaly_score self g = (Ok scores, g') ->
  exists lambdas recons,
    fit_lambdas (kpca_args self None) (self_matrix self) = Ok lambdas
    /\ recon_series self = Ok recons
    /\ (2 <= snd (shape (self_matrix self)))%nat
    /\ scores = np_sum_axis0
                  (anomaly_scores self recons
                     (map (fun s => s / np_sum lambdas) (np_cumsum lambdas)))
    /\ g' = mkRandomState (tape g) (2 + pos g).
Proof.
  rewrite get_anomaly_score_run.
  destruct (get_ev_ratio self) as [ratios|e] eqn:Hev; [|discriminate].
  destruct (reconstruct_matrix self g) as [[ms|e] g1] eqn:Hrm; [|discriminate].
  intros H; injection H as <- <-.
  apply get_ev_ratio_inv in Hev. destruct Hev as (lambdas & Hl & ->).
  apply reconstruct_matrix_ok in Hrm. destruct Hrm as (Hs & Hd & ->).
  exists lambdas, ms. auto.
Qed.

(** Every reconstruction of the series has as many rows as the data. *)
Lemma recon_series_rows self recons :
  recon_series self = Ok recons ->
  Forall (fun m => length m = length (self_matrix self)) recons.
Proof.
  intros Hs. apply Forall_forall. intros m Hin.
  destruct (In_nth _ _ [] Hin) as (k & Hk & <-).
  assert (Hk' : (k < snd (shape (self_matrix self)))%nat)
    by (rewrite <- (recon_series_length _ _ Hs); exact Hk).
  pose proof (reconstruct_shape _ _ _ (recon_series_nth _ _ _ Hs Hk')) as Hshape.
  unfold shape in Hshape. now injection Hshape.
Qed.

Lemma anomaly_scores_rows self recons ratios :
  recon_series self = Ok recons ->
  Forall (fun v => length v = length (self_matrix self))
         (anomaly_scores self recons ratios).
Proof.
  intros Hs. pose proof (recon_series_rows _ _ Hs) as Hrows. clear Hs.
  unfold anomaly_scores. revert ratios.
  induction Hrows as [|m recons Hm _ IH]; intros [|ev ratios]; simpl;
    constructor; auto.
  rewrite compute_sub_score_length. lia.
Qed.

Lemma anomaly_scores_sum_nth self lambdas recons i :
  recon_series self = Ok recons ->
  (i < length (self_matrix self))%nat ->
  nth i (np_sum_axis0
           (anomaly_scores self recons
              (map (fun s => s / np_sum lambdas) (np_cumsum lambdas)))) 0
  = weighted_residual_sum self lambdas recons i
      (Nat.min (length recons) (length lambdas)).
Proof.
  intros Hs Hi.
  set (ratios := map (fun s => s / np_sum lambdas) (np_cumsum lambdas)).
  rewrite (np_sum_axis0_nth (length (self_matrix self)))
    by (auto using anomaly_scores_rows).
  pose proof (recon_series_rows _ _ Hs) as Hrows.
  assert (Hlen : length (anomaly_scores self recons ratios)
                 = Nat.min (length recons) (length lambdas)).
  { unfold anomaly_scores, ratios. now rewrite map2_length, ev_ratio_length. }
  rewrite (list_as_map_nth (anomaly_scores self recons ratios) []) at 1.
  rewrite map_map, Hlen. unfold weighted_residual_sum.
  f_equal. apply map_ext_in. intros k Hk. apply in_seq in Hk.
  unfold anomaly_scores.
  rewrite (map2_nth (compute_sub_score self) _ _ _ (@nil vector) 0)
    by (unfold ratios; rewrite ?ev_ratio_length; lia).
  rewrite compute_sub_score_nth; [|assumption|].
  - unfold ratios. rewrite ev_ratio_nth by lia. apply Rmult_comm.
  - rewrite Forall_forall in Hrows. rewrite (Hrows (nth k recons [])); [assumption|].
    apply nth_In. lia.
Qed.

End Score.

(* ================================================================== *)
(** ** The insertion sorts meet the contract of [np.argsort] *)

Section InsertionArgsort.

Variable before : R -> R -> bool.
Hypothesis before_true : forall x y, before x y = true -> x <= y.
Hypothesis before_false : forall x y, before x y = false -> y <= x.

Variable v : vector.

Let key (i : nat) : R := nth i v 0.
Let key_le (i j : nat) : Prop := key i <= key j.

Lemma insert_position_perm i l :
  Permutation (insert_position before v i l) (i :: l).
Proof.
  induction l as [|j l IH]; simpl; [reflexivity|].
  destruct (before _ _); [reflexivity|].
  rewrite IH. apply perm_swap.
Qed.

Lemma insert_position_sorted i l :
  Sorted key_le l -> Sorted key_le (insert_position before v i l).
Proof.
  induction 1 as [|j l Hs IH Hhd]; simpl.
  - repeat constructor.
  - destruct (before (nth i v 0) (nth j v 0)) eqn:E.
    + constructor; [now constructor|]. constructor. now apply before_true.
    + constructor; [assumption|].
      destruct l as [|j' l]; simpl.
      * constructor. now apply before_false.
      * destruct (before (nth i v 0) (nth j' v 0)).
        -- constructor. now apply before_false.
        -- constructor. now inversion Hhd.
Qed.

Lemma argsort_by_perm_aux xs :
  Permutation (fold_right (insert_position before v) [] xs) xs.
Proof.
  induction xs as [|x xs IH]; simpl; [reflexivity|].
  rewrite insert_position_perm. now constructor.
Qed.

Lemma argsort_by_sorted_aux xs :
  Sorted key_le (fold_right (insert_position before v) [] xs).
Proof.
  induction xs as [|x xs IH]; simpl; [constructor|].
  now apply insert_position_sorted.
Qed.

Lemma Sorted_key_map l : Sorted key_le l -> Sorted Rle (map key l).
Proof.
  induction 1 as [|j l Hs IH Hhd]; simpl; constructor; auto.
  destruct Hhd; simpl; constructor; assumption.
Qed.

Lemma argsort_by_perm : Permutation (argsort_by before v) (seq 0 (length v)).
Proof. apply argsort_by_perm_aux. Qed.

Lemma argsort_by_sorted :
  Sorted Rle (map (fun i => nth i v 0) (argsort_by before v)).
Proof. apply Sorted_key_map, argsort_by_sorted_aux. Qed.

End InsertionArgsort.

Lemma Rleb_true x y : Rleb x y = true -> x <= y.
Proof. unfold Rleb; destruct (Rle_dec x y); [auto|discriminate]. Qed.

Lemma Rleb_false x y : Rleb x y = false -> y <= x.
Proof. unfold Rleb; destruct (Rle_dec x y); [discriminate|intros; lra]. Qed.



Lemma stable_argsort_contract : argsort_contract stable_argsort.
Proof.
  intros v. split.
  - apply argsort_by_perm.
  - apply (argsort_by_sorted Rleb Rleb_true Rleb_false).
Qed.


(* ================================================================== *)
(** ** Ranking and labels *)

Lemma py_slice_to_nonneg {A} (xs : list A) (k : Z) :
  (0 <= k)%Z -> py_slice_to xs k = firstn (Z.to_nat k) xs.
Proof.
  intros H. unfold py_slice_to.
  destruct (Z.leb_spec 0 k); [reflexivity|lia].
Qed.

Lemma np_isin_range_length n indices : length (np_isin_range n indices) = n.
Proof. unfold np_isin_range. now rewrite length_map, length_seq. Qed.



Lemma existsb_eqb_In i l : existsb (Nat.eqb i) l = true <-> In i l.
Proof.
  rewrite existsb_exists. split.
  - intros (x & Hx & E). apply Nat.eqb_eq in E. now subst.
  - intros H. exists i. split; [assumption|apply Nat.eqb_refl].
Qed.



Lemma firstn_NoDup {A} k (l : list A) : NoDup l -> NoDup (firstn k l).
Proof.
  intros H. rewrite <- (firstn_skipn k l) in H.
  now apply NoDup_app_remove_r in H.
Qed.

Lemma firstn_In {A} k (l : list A) x : In x (firstn k l) -> In x l.
Proof.
  intros H. rewrite <- (firstn_skipn k l). apply in_or_app. now left.
Qed.

Lemma StronglySorted_app_inv {A} (rel : A -> A -> Prop) l1 l2 a b :
  StronglySorted rel (l1 ++ l2) -> In a l1 -> In b l2 -> rel a b.
Proof.
  induction l1 as [|x l1 IH]; simpl; intros Hs Ha Hb; [contradiction|].
  inversion Hs as [|? ? Hs' Hx]; subst.
  destruct Ha as [->|Ha].
  - rewrite Forall_forall in Hx. apply Hx, in_or_app. now right.
  - now apply IH.
Qed.

Lemma Sorted_map_key (key : nat -> R) l :
  Sorted Rle (map key l) -> StronglySorted (fun i j => key i <= key j) l.
Proof.
  intros H. apply Sorted_StronglySorted.
  - intros i j k. apply Rle_trans.
  - induction l as [|i l IH]; [constructor|].
    simpl in H. inversion H as [|? ? Hs Hhd]; subst.
    constructor; [auto|].
    destruct l; simpl in *; constructor. now inversion Hhd.
Qed.

Lemma nth_map_Ropp i (scores : vector) :
  nth i (map Ropp scores) 0 = - nth i scores 0.
Proof.
  destruct (le_lt_dec (length scores) i) as [H|H].
  - rewrite !nth_overflow by (rewrite ?length_map; assumption). lra.
  - now apply nth_map_lt.
Qed.


Section Ranking.

Context {sorter : ArgSort}.
Hypothesis sorter_contract : argsort_contract sorter.

Lemma ranking_perm scores : Permutation (ranking scores) (seq 0 (length scores)).
Proof.
  unfold ranking. rewrite <- (length_map Ropp scores). apply sorter_contract.
Qed.

Lemma ranking_length scores : length (ranking scores) = length scores.
Proof. now rewrite (Permutation_length (ranking_perm scores)), length_seq. Qed.

Lemma ranking_NoDup scores : NoDup (ranking scores).
Proof.
  eapply Permutation_NoDup; [symmetry; apply ranking_perm|apply seq_NoDup].
Qed.

Lemma ranking_In scores i : In i (ranking scores) <-> (i < length scores)%nat.
Proof.
  split; intros H.
  - apply (Permutation_in _ (ranking_perm scores)) in H. apply in_seq in H. lia.
  - apply (Permutation_in _ (Permutation_sym (ranking_perm scores))).
    apply in_seq. lia.
Qed.

Lemma ranking_descending scores :
  StronglySorted (fun i j => nth j scores 0 <= nth i scores 0) (ranking scores).
Proof.
  pose proof (proj2 (sorter_contract (map Ropp scores))) as H.
  apply Sorted_map_key in H. fold (ranking scores) in H.
  eapply StronglySorted_ind with (P := StronglySorted _) in H.
  - exact H.
  - constructor.
  - intros i l _ IH Hx. constructor; [assumption|].
    eapply Forall_impl; [|exact Hx]. intros j Hj. simpl in Hj.
    rewrite !nth_map_Ropp in Hj. lra.
Qed.

(** The rows kept by [indices_desc[:k]] score at least as high as the rows
    left out. *)
Lemma top_scores scores k a b :
  In a (firstn k (ranking scores)) -> (b < length scores)%nat ->
  ~ In b (firstn k (ranking scores)) ->
  nth b scores 0 <= nth a scores 0.
Proof.
  intros Ha Hb Hnb.
  pose proof (ranking_descending scores) as Hs.
  rewrite <- (firstn_skipn k (ranking scores)) in Hs.
  apply (StronglySorted_app_inv _ _ _ a b Hs Ha).
  apply ranking_In in Hb. rewrite <- (firstn_skipn k (ranking scores)) in Hb.
  apply in_app_or in Hb. tauto.
Qed.

Context {engine : KernelPCA}.

Lemma get_anomaly_indices_run self g :
  get_anomaly_indices self g =
  match get_anomaly_score self g with
  | (Raise e, g') => (Raise e, g')
  | (Ok scores, g') =>
      (Ok (py_slice_to (ranking scores)
             (np_ceil (INR (length (self_matrix self)) * self_contamination self))),
       g')
  end.
Proof.
  unfold get_anomaly_indices, bind, ret.
  now destruct (get_anomaly_score self g) as [[scores|e] g'].
Qed.

Lemma predict_run self g :
  predict self g =
  match get_anomaly_score self g with
  | (Raise e, g') => (Raise e, g')
  | (Ok scores, g') =>
      (Ok (np_isin_range (length (self_matrix self))
             (py_slice_to (ranking scores)
                (np_ceil (INR (length (self_matrix self))
                          * self_contamination self)))),
       g')
  end.
Proof.
  unfold predict, bind, ret. rewrite get_anomaly_indices_run.
  now destruct (get_anomaly_score self g) as [[scores|e] g'].
Qed.

(** With a spectrum that is not empty the score vector has one entry per
    row. *)
Lemma get_anomaly_score_length self g scores g' :
  (forall lambdas,
      fit_lambdas (kpca_args self None) (self_matrix self) = Ok lambdas ->
      lambdas <> []) ->
  get_anomaly_score self g = (Ok scores, g') ->
  length scores = length (self_matrix self).
Proof.
  intros Hne Hrun.
  destruct (get_anomaly_score_ok _ _ _ _ Hrun)
    as (lambdas & recons & Hl & Hs & Hd & -> & _).
  apply np_sum_axis0_length; [now apply anomaly_scores_rows|].
  intros E. apply (f_equal (@length vector)) in E.
  unfold anomaly_scores in E.
  rewrite map2_length, ev_ratio_length in E. simpl in E.
  pose proof (recon_series_length _ _ Hs) as Hlen.
  specialize (Hne lambdas Hl).
  destruct lambdas; [congruence|]. simpl in E.
  unfold matrix, vector in *. lia.
Qed.

End Ranking.

(* ================================================================== *)
(** ** The sample matrices are standardized data *)

Lemma np_mean_pair (a b : R) : np_mean [a; b] = (a + b) / 2.
Proof. unfold np_mean, np_sum. simpl. field. Qed.

Lemma np_var_pair (a b : R) : np_var [a; b] = Rsqr ((a - b) / 2).
Proof.
  unfold np_var. simpl map. rewrite !np_mean_pair. unfold Rsqr. field.
Qed.

Lemma np_mean_balanced (a b c d : R) :
  a + b + c + d = 0 -> np_mean [a; b; c; d] = 0.
Proof.
  intros H. unfold np_mean, np_sum. simpl.
  replace (a + (b + (c + (d + 0)))) with 0 by lra. unfold Rdiv. apply Rmult_0_l.
Qed.

Lemma scale_unit (a b c d : R) :
  a + b + c + d = 0 -> a * a + b * b + c * c + d * d = 4 ->
  scale_ [a; b; c; d] = 1.
Proof.
  intros Hm Hv. unfold scale_, handle_zeros_in_scale, np_var.
  rewrite (np_mean_balanced a b c d Hm). unfold np_mean, np_sum. simpl.
  replace ((a - 0)² + ((b - 0)² + ((c - 0)² + ((d - 0)² + 0)))) with 4
    by (unfold Rsqr; lra).
  replace (4 / (1 + 1 + 1 + 1)) with 1 by field.
  rewrite sqrt_1. destruct (Req_EM_T 1 0); [exfalso; lra|reflexivity].
Qed.

Lemma init_tall_matrix c :
  init tall_matrix c default_kernel default_verbose default_gamma
       default_random_state = Ok (sample tall_matrix c).
Proof.
  unfold init, StandardScaler_fit_transform, sample. simpl.
  rewrite !scale_unit, !np_mean_balanced by lra.
  unfold tall_matrix.
  repeat (apply f_equal || apply f_equal2 || f_equal); try reflexivity; field.
Qed.

Lemma init_wide_matrix c :
  init wide_matrix c default_kernel default_verbose default_gamma
       default_random_state = Ok (sample wide_matrix c).
Proof.
  unfold init, StandardScaler_fit_transform, sample. simpl.
  rewrite !scale_unit, !np_mean_balanced by lra.
  unfold wide_matrix.
  repeat (apply f_equal || apply f_equal2 || f_equal); try reflexivity; field.
Qed.

(** [__init__] keeps the shape of the raw matrix. *)
Lemma init_shape raw contamination kernel verbose gamma random_state self :
  init raw contamination kernel verbose gamma random_state = Ok self ->
  shape (self_matrix self) = shape raw
  /\ self_contamination self = contamination.
Proof.
  unfold init, StandardScaler_fit_transform.
  destruct (negb (rectangular raw)); [discriminate|].
  destruct (Nat.eqb (length raw) 0); [discriminate|].
  destruct (Nat.eqb (length (hd [] raw)) 0); [discriminate|].
  intros H. injection H as <-. simpl. split; [|reflexivity].
  unfold shape. rewrite length_map. f_equal.
  destruct raw as [|row raw]; [reflexivity|].
  simpl. now rewrite length_map, length_seq.
Qed.

Lemma init_narrow_matrix c :
  init narrow_matrix c default_kernel default_verbose default_gamma
       default_random_state = Ok (sample narrow_matrix c).
Proof.
  unfold init, StandardScaler_fit_transform, sample. simpl.
  rewrite !scale_unit, !np_mean_balanced by lra.
  unfold narrow_matrix.
  repeat (apply f_equal || apply f_equal2 || f_equal); try reflexivity; field.
Qed.

Lemma init_column_matrix c :
  init column_matrix c default_kernel default_verbose default_gamma
       default_random_state = Ok (sample column_matrix c).
Proof.
  unfold init, StandardScaler_fit_transform, sample. simpl.
  assert (S : scale_ [1; -1] = 1).
  { unfold scale_, handle_zeros_in_scale. rewrite np_var_pair.
    replace (Rsqr ((1 - -1) / 2)) with (Rsqr 1) by (unfold Rsqr; field).
    rewrite sqrt_Rsqr by lra.
    destruct (Req_EM_T 1 0); [exfalso; lra|reflexivity]. }
  rewrite S, np_mean_pair. unfold column_matrix.
  repeat (apply f_equal || apply f_equal2 || f_equal); try reflexivity; field.
Qed.

(* ================================================================== *)
(** ** Runs on the sample data *)

Lemma sample_fit_lambdas X c :
  length X = 4%nat ->
  fit_lambdas (KernelPCA := capped_engine) (kpca_args (sample X c) None)
              (self_matrix (sample X c)) = Ok sample_lambdas.
Proof.
  intros H. simpl. rewrite H. simpl. unfold sample_lambdas.
  replace (1 + 1 + 1) with 3 by lra. replace (1 + 1) with 2 by lra.
  reflexivity.
Qed.

Lemma tall_recon_series c :
  recon_series (engine := capped_engine) (sample tall_matrix c) = Ok tall_series.
Proof. reflexivity. Qed.

Lemma wide_recon_series c :
  recon_series (engine := capped_engine) (sample wide_matrix c) = Ok wide_series.
Proof. reflexivity. Qed.

Lemma tall_reconstruct_matrix c :
  reconstruct_matrix (engine := capped_engine) (sample tall_matrix c)
                     (generator [0; 0]%nat)
  = (Ok tall_series, drawn (generator [0; 0]%nat)).
Proof.
  rewrite reconstruct_matrix_run, tall_recon_series.
  change (snd (shape (self_matrix (sample tall_matrix c)))) with 3%nat.
  change (np_random_choice2 3 (generator [0; 0]%nat))
    with (Ok (0, 1)%nat, drawn (generator [0; 0]%nat)).
  cbv beta iota.
  rewrite (np_all_eq_false_at _ _ 0 1); [reflexivity|].
  simpl. lra.
Qed.

(** On [wide_matrix] the first two reconstructions differ and the last two
    coincide: the outcome of the sanity check depends on the draw. *)
Lemma wide_reconstruct_matrix_01 c g :
  np_random_choice2 5 g = (Ok (0, 1)%nat, drawn g) ->
  reconstruct_matrix (engine := capped_engine) (sample wide_matrix c) g
  = (Ok wide_series, drawn g).
Proof.
  intros Hdraw. rewrite reconstruct_matrix_run, wide_recon_series.
  change (snd (shape (self_matrix (sample wide_matrix c)))) with 5%nat.
  rewrite Hdraw. cbv beta iota.
  rewrite (np_all_eq_false_at _ _ 0 1); [reflexivity|].
  simpl. lra.
Qed.

Lemma wide_reconstruct_matrix_34 c g :
  np_random_choice2 5 g = (Ok (3, 4)%nat, drawn g) ->
  reconstruct_matrix (engine := capped_engine) (sample wide_matrix c) g
  = (Raise (AssertionError description), drawn g).
Proof.
  intros Hdraw. rewrite reconstruct_matrix_run, wide_recon_series.
  change (snd (shape (self_matrix (sample wide_matrix c)))) with 5%nat.
  rewrite Hdraw. cbv beta iota.
  replace (np_all_eq (nth 3 wide_series []) (nth 4 wide_series [])) with true;
    [reflexivity|].
  symmetry. now apply np_all_eq_true.
Qed.

Lemma sample_get_ev_ratio X c :
  length X = 4%nat ->
  get_ev_ratio (engine := capped_engine) (sample X c)
  = Ok (map (fun s => s / np_sum sample_lambdas) (np_cumsum sample_lambdas)).
Proof.
  intros H. apply (get_ev_ratio_ok (engine := capped_engine)).
  now apply sample_fit_lambdas.
Qed.

Lemma wide_get_anomaly_score_01 c g :
  np_random_choice2 5 g = (Ok (0, 1)%nat, drawn g) ->
  get_anomaly_score (engine := capped_engine) (sample wide_matrix c) g
  = (Ok (np_sum_axis0
           (anomaly_scores (sample wide_matrix c) wide_series
              (map (fun s => s / np_sum sample_lambdas) (np_cumsum sample_lambdas)))),
     drawn g).
Proof.
  intros Hdraw. rewrite get_anomaly_score_run.
  rewrite (sample_get_ev_ratio wide_matrix c eq_refl).
  now rewrite wide_reconstruct_matrix_01.
Qed.

Lemma wide_get_anomaly_score_34 c g :
  np_random_choice2 5 g = (Ok (3, 4)%nat, drawn g) ->
  get_anomaly_score (engine := capped_engine) (sample wide_matrix c) g
  = (Raise (AssertionError description), drawn g).
Proof.
  intros Hdraw. rewrite get_anomaly_score_run.
  rewrite (sample_get_ev_ratio wide_matrix c eq_refl).
  now rewrite wide_reconstruct_matrix_34.
Qed.

Lemma tall_get_anomaly_score c :
  get_anomaly_score (engine := capped_engine) (sample tall_matrix c)
                    (generator [0; 0]%nat)
  = (Ok [tall_score; tall_score; tall_score; tall_score],
     drawn (generator [0; 0]%nat)).
Proof.
  rewrite get_anomaly_score_run.
  rewrite (sample_get_ev_ratio tall_matrix c eq_refl).
  rewrite tall_reconstruct_matrix.
  f_equal. f_equal.
  unfold anomaly_scores, compute_sub_score, mat_sub, vec_sub, np_cumsum,
    compute_vector_length, np_sum, sample_lambdas.
  cbn.
  repeat match goal with
         | |- context [sqrt ?e] =>
             lazymatch e with
             | 2 => fail
             | 1 => fail
             | 0 => fail
             | _ => first [ replace e with 2 by (unfold Rsqr; lra)
                          | replace e with 1 by (unfold Rsqr; lra)
                          | replace e with 0 by (unfold Rsqr; lra) ]
             end
         end.
  rewrite sqrt_1, sqrt_0. unfold tall_score.
  repeat (apply f_equal2; [field|]). reflexivity.
Qed.


Lemma sample_lambdas_positive : Forall (Rlt 0) sample_lambdas.
Proof. unfold sample_lambdas. repeat constructor; lra. Qed.

Lemma sample_lambdas_nonempty : sample_lambdas <> [].
Proof. discriminate. Qed.

(* ================================================================== *)
(** ** The score of a row (claims C1 and C9) *)

Section ScoreTheorems.

Context {engine : KernelPCA}.


(** C9.  When the full decomposition returns a spectrum of positive
    eigenvalues that is not empty and [get_anomaly_score] returns, the score
    vector has one entry per row and no entry is negative. *)
Theorem anomaly_score_nonneg self g scores g' lambdas :
  fit_lambdas (kpca_args self None) (self_matrix self) = Ok lambdas ->
  Forall (Rlt 0) lambdas ->
  lambdas <> [] ->
  get_anomaly_score self g = (Ok scores, g') ->
  length scores = length (self_matrix self) /\ Forall (Rle 0) scores.
Proof.
  intros Hl Hpos Hne Hrun. split.
  - apply (get_anomaly_score_length self g scores g'); [|assumption].
    intros l Hl'. rewrite Hl in Hl'. now injection Hl' as <-.
  - destruct (get_anomaly_score_ok _ _ _ _ Hrun)
      as (lambdas' & recons & Hl' & Hs & Hd & -> & _).
    rewrite Hl in Hl'. injection Hl' as <-.
    apply np_sum_axis0_nonneg.
    destruct (ev_ratio_properties lambdas Hpos Hne) as (Hr & _ & _).
    unfold anomaly_scores.
    revert Hr. generalize (map (fun s => s / np_sum lambdas) (np_cumsum lambdas)).
    clear. intros ratios Hr. revert recons.
    induction Hr as [|ev ratios Hev _ IH]; intros [|m recons]; simpl;
      constructor; auto.
    apply compute_sub_score_nonneg. lra.
Qed.

End ScoreTheorems.


(** The scores of the four samples of three features: four entries, none
    negative. *)
Lemma anomaly_score_nonneg_witness :
  length [tall_score; tall_score; tall_score; tall_score] = length tall_matrix
  /\ Forall (Rle 0) [tall_score; tall_score; tall_score; tall_score].
Proof.
  exact (anomaly_score_nonneg (engine := capped_engine)
           (sample tall_matrix default_contamination)
           (generator [0; 0]%nat)
           [tall_score; tall_score; tall_score; tall_score]
           (drawn (generator [0; 0]%nat))
           sample_lambdas
           (sample_fit_lambdas tall_matrix default_contamination eq_refl)
           sample_lambdas_positive
           sample_lambdas_nonempty
           (tall_get_anomaly_score default_contamination)).
Defined.


(* ================================================================== *)
(** ** The cumulative variance-ratio sequence (claim C2) *)

Section EvRatioTheorems.

Context {engine : KernelPCA}.

(** C2, as amended.  When the full decomposition returns a spectrum of
    positive eigenvalues that is not empty, [get_ev_ratio] returns a sequence
    with one element per returned eigenvalue (their number is the
    decomposition's, not the number of columns); element [k] is the sum of
    the first [k] eigenvalues over the sum of all; every element lies in
    (0, 1], the sequence is non-decreasing and its last element is 1. *)
Theorem ev_ratio_cumulative self lambdas :
  fit_lambdas (kpca_args self None) (self_matrix self) = Ok lambdas ->
  Forall (Rlt 0) lambdas ->
  lambdas <> [] ->
  exists ratios,
    get_ev_ratio self = Ok ratios
    /\ length ratios = length lambdas
    /\ (forall k, (k < length lambdas)%nat ->
          nth k ratios 0 = cumulative_variance_ratio lambdas (S k))
    /\ Forall (fun r => 0 < r <= 1) ratios
    /\ StronglySorted Rle ratios
    /\ last ratios 0 = 1.
Proof.
  intros Hl Hpos Hne.
  exists (map (fun s => s / np_sum lambdas) (np_cumsum lambdas)).
  destruct (ev_ratio_properties lambdas Hpos Hne) as (H1 & H2 & H3).
  repeat split; try assumption.
  - now apply get_ev_ratio_ok.
  - apply ev_ratio_length.
  - intros k Hk. now apply ev_ratio_nth.
Qed.

End EvRatioTheorems.

(** The ratio sequence of the spectrum 3, 2, 1. *)
Lemma ev_ratio_cumulative_witness :
  exists ratios,
    get_ev_ratio (engine := capped_engine)
      (sample tall_matrix default_contamination) = Ok ratios
    /\ length ratios = length sample_lambdas
    /\ (forall k, (k < length sample_lambdas)%nat ->
          nth k ratios 0 = cumulative_variance_ratio sample_lambdas (S k))
    /\ Forall (fun r => 0 < r <= 1) ratios
    /\ StronglySorted Rle ratios
    /\ last ratios 0 = 1.
Proof.
  exact (ev_ratio_cumulative (engine := capped_engine)
           (sample tall_matrix default_contamination) sample_lambdas
           (sample_fit_lambdas tall_matrix default_contamination eq_refl)
           sample_lambdas_positive sample_lambdas_nonempty).
Defined.

(** C2, as stated, fails on the length.  For four samples the full
    decomposition returns three eigenvalues, and the ratio sequence has three
    elements, whether the data has five features or two. *)
Lemma ev_ratio_length_counterexample :
  (snd (shape (self_matrix (sample wide_matrix default_contamination))) = 5%nat
   /\ exists ratios,
        get_ev_ratio (engine := capped_engine)
          (sample wide_matrix default_contamination) = Ok ratios
        /\ length ratios = 3%nat)
  /\ (snd (shape (self_matrix (sample narrow_matrix default_contamination))) = 2%nat
      /\ exists ratios,
           get_ev_ratio (engine := capped_engine)
             (sample narrow_matrix default_contamination) = Ok ratios
           /\ length ratios = 3%nat).
Proof.
  split; (split; [reflexivity|]); eexists;
    (split;
     [ now apply sample_get_ev_ratio | reflexivity ]).
Qed.

(* ================================================================== *)
(** ** The sanity check of the reconstruction series (claims C5 and C10) *)

Section SanityCheckTheorems.

Context {engine : KernelPCA}.

(** C5, as amended.  With at least two columns and every reconstruction
    built, [reconstruct_matrix] draws two distinct positions [i] and [j] and
    raises the assertion error exactly when the two matrices at these
    positions are equal element by element; otherwise it returns the full
    ordered series of [d] matrices.  Hence it always raises when all the
    matrices are equal and always returns when they differ pairwise. *)
Theorem reconstruct_matrix_sanity_check self g recons :
  recon_series self = Ok recons ->
  (2 <= snd (shape (self_matrix self)))%nat ->
  exists i j,
    np_random_choice2 (snd (shape (self_matrix self))) g = (Ok (i, j), drawn g)
    /\ (i < length recons)%nat /\ (j < length recons)%nat /\ i <> j
    /\ length recons = snd (shape (self_matrix self))
    /\ (nth i recons [] = nth j recons [] ->
        reconstruct_matrix self g = (Raise (AssertionError description), drawn g))
    /\ (nth i recons [] <> nth j recons [] ->
        reconstruct_matrix self g = (Ok recons, drawn g))
    /\ ((forall p q, (p < length recons)%nat -> (q < length recons)%nat ->
                     nth p recons [] = nth q recons []) ->
        reconstruct_matrix self g = (Raise (AssertionError description), drawn g))
    /\ ((forall p q, (p < length recons)%nat -> (q < length recons)%nat ->
                     p <> q -> nth p recons [] <> nth q recons []) ->
        reconstruct_matrix self g = (Ok recons, drawn g)).
Proof.
  intros Hs Hd.
  pose proof (recon_series_length _ _ Hs) as Hlen.
  destruct (np_random_choice2_distinct _ g Hd) as (i & j & Hdraw & Hi & Hj & Hij).
  assert (Heq : nth i recons [] = nth j recons [] ->
                reconstruct_matrix self g
                = (Raise (AssertionError description), drawn g)).
  { intros E. rewrite reconstruct_matrix_run, Hs, Hdraw.
    apply np_all_eq_true in E. now rewrite E. }
  assert (Hne : nth i recons [] <> nth j recons [] ->
                reconstruct_matrix self g = (Ok recons, drawn g)).
  { intros E. rewrite reconstruct_matrix_run, Hs, Hdraw.
    destruct (np_all_eq _ _) eqn:B; [|reflexivity].
    apply np_all_eq_true in B. contradiction. }
  exists i, j. unfold matrix, vector in *.
  repeat split; try assumption; try lia.
  - intros Hall. apply Heq, Hall; lia.
  - intros Hall. apply Hne, Hall; lia.
Qed.

(** C10.  With a single column every call of [reconstruct_matrix], of
    [get_anomaly_score] and, for every sort, of [get_anomaly_indices] and
    [predict] raises: when the one reconstruction is built, the draw of two
    distinct positions out of one raises [ValueError]. *)
Theorem single_column_raises {sorter : ArgSort} self g :
  snd (shape (self_matrix self)) = 1%nat ->
  (exists e g', reconstruct_matrix self g = (Raise e, g'))
  /\ (forall recons, recon_series self = Ok recons ->
        exists msg, reconstruct_matrix self g = (Raise (ValueError msg), g))
  /\ (exists e g', get_anomaly_score self g = (Raise e, g'))
  /\ (exists e g', get_anomaly_indices self g = (Raise e, g'))
  /\ (exists e g', predict self g = (Raise e, g')).
Proof.
  intros Hd.
  assert (Hscore : exists e g', get_anomaly_score self g = (Raise e, g')).
  { rewrite get_anomaly_score_run.
    destruct (get_ev_ratio self); [|eauto].
    destruct (reconstruct_matrix_one_column self g Hd) as (e & g' & ->). eauto. }
  split; [now apply reconstruct_matrix_one_column|].
  split.
  { intros recons Hs. rewrite reconstruct_matrix_run, Hs.
    destruct (np_random_choice2_small (snd (shape (self_matrix self))) g)
      as (msg & ->); [lia|eauto]. }
  split; [assumption|].
  destruct Hscore as (e & g' & Hscore).
  split; exists e, g'.
  - now rewrite get_anomaly_indices_run, Hscore.
  - now rewrite predict_run, Hscore.
Qed.

End SanityCheckTheorems.

(** The sanity check on the four samples of five features. *)
Lemma reconstruct_matrix_sanity_check_witness :
  exists i j,
    np_random_choice2 5 (generator [3; 3]%nat)
    = (Ok (i, j), drawn (generator [3; 3]%nat))
    /\ (i < length wide_series)%nat /\ (j < length wide_series)%nat /\ i <> j
    /\ length wide_series = 5%nat
    /\ (nth i wide_series [] = nth j wide_series [] ->
        reconstruct_matrix (engine := capped_engine)
          (sample wide_matrix default_contamination) (generator [3; 3]%nat)
        = (Raise (AssertionError description), drawn (generator [3; 3]%nat)))
    /\ (nth i wide_series [] <> nth j wide_series [] ->
        reconstruct_matrix (engine := capped_engine)
          (sample wide_matrix default_contamination) (generator [3; 3]%nat)
        = (Ok wide_series, drawn (generator [3; 3]%nat)))
    /\ ((forall p q, (p < length wide_series)%nat -> (q < length wide_series)%nat ->
                     nth p wide_series [] = nth q wide_series []) ->
        reconstruct_matrix (engine := capped_engine)
          (sample wide_matrix default_contamination) (generator [3; 3]%nat)
        = (Raise (AssertionError description), drawn (generator [3; 3]%nat)))
    /\ ((forall p q, (p < length wide_series)%nat -> (q < length wide_series)%nat ->
                     p <> q -> nth p wide_series [] <> nth q wide_series []) ->
        reconstruct_matrix (engine := capped_engine)
          (sample wide_matrix default_contamination) (generator [3; 3]%nat)
        = (Ok wide_series, drawn (generator [3; 3]%nat))).
Proof.
  apply (reconstruct_matrix_sanity_check (engine := capped_engine)
           (sample wide_matrix default_contamination) (generator [3; 3]%nat)
           wide_series).
  - apply wide_recon_series.
  - simpl. lia.
Defined.

(** Two samples of one feature: every method raises. *)
Lemma single_column_raises_witness :
  (exists e g', reconstruct_matrix (engine := capped_engine)
                  (sample column_matrix default_contamination)
                  (generator [0; 0]%nat) = (Raise e, g'))
  /\ (forall recons,
        recon_series (engine := capped_engine)
          (sample column_matrix default_contamination) = Ok recons ->
        exists msg, reconstruct_matrix (engine := capped_engine)
                      (sample column_matrix default_contamination)
                      (generator [0; 0]%nat)
                    = (Raise (ValueError msg), generator [0; 0]%nat))
  /\ (exists e g', get_anomaly_score (engine := capped_engine)
                     (sample column_matrix default_contamination)
                     (generator [0; 0]%nat) = (Raise e, g'))
  /\ (exists e g', get_anomaly_indices (engine := capped_engine)
                     (sorter := stable_argsort)
                     (sample column_matrix default_contamination)
                     (generator [0; 0]%nat) = (Raise e, g'))
  /\ (exists e g', predict (engine := capped_engine) (sorter := stable_argsort)
                     (sample column_matrix default_contamination)
                     (generator [0; 0]%nat) = (Raise e, g')).
Proof.
  apply (single_column_raises (engine := capped_engine) (sorter := stable_argsort)
           (sample column_matrix default_contamination) (generator [0; 0]%nat)).
  reflexivity.
Defined.

(** C5, as stated, fails.  On four samples of five features the first two
    reconstructions differ, so the series is not degenerate; yet when the draw
    falls on the last two positions, whose matrices coincide, the assertion
    error is raised. *)
Lemma reconstruct_matrix_sanity_check_counterexample :
  recon_series (engine := capped_engine)
    (sample wide_matrix default_contamination) = Ok wide_series
  /\ nth 0 wide_series [] <> nth 1 wide_series []
  /\ np_random_choice2 5 (generator [3; 3]%nat)
     = (Ok (3, 4)%nat, drawn (generator [3; 3]%nat))
  /\ reconstruct_matrix (engine := capped_engine)
       (sample wide_matrix default_contamination) (generator [3; 3]%nat)
     = (Raise (AssertionError description), drawn (generator [3; 3]%nat)).
Proof.
  split; [apply wide_recon_series|].
  split.
  { intros E. apply (f_equal (fun m => nth 1 (nth 0 m []) 0)) in E.
    simpl in E. lra. }
  split; [reflexivity|].
  now apply wide_reconstruct_matrix_34.
Qed.

(* ================================================================== *)
(** ** Ranking, selection and labels (claims C3, C4, C7 and C8) *)

Lemma Rleb_refl x : Rleb x x = true.
Proof. unfold Rleb. destruct (Rle_dec x x); [reflexivity|exfalso; lra]. Qed.


Lemma stable_ranking_ties (s : R) :
  ranking (sorter := stable_argsort) [s; s; s; s] = [0; 1; 2; 3]%nat.
Proof.
  unfold ranking, np_argsort, stable_argsort, argsort_by. simpl.
  repeat (rewrite Rleb_refl; simpl). reflexivity.
Qed.


Lemma np_ceil_IZR (x : R) (z : Z) : x = IZR z -> np_ceil x = z.
Proof. intros ->. unfold np_ceil. apply Zceil_eq. lra. Qed.

Lemma np_ceil_nonneg (x : R) : 0 <= x -> (0 <= np_ceil x)%Z.
Proof.
  intros H. pose proof (Zceil_bound x) as [_ Hhi]. unfold np_ceil.
  apply le_IZR. lra.
Qed.

Section RankingTheorems.

Context {engine : KernelPCA} {sorter : ArgSort}.
Hypothesis sorter_contract : argsort_contract sorter.




(** Two calls of [predict] that both return give the same labels. *)
Lemma predict_returns_same_labels self g1 g2 labels1 labels2 g1' g2' :
  predict self g1 = (Ok labels1, g1') ->
  predict self g2 = (Ok labels2, g2') ->
  labels1 = labels2.
Proof.
  rewrite !predict_run.
  destruct (get_anomaly_score self g1) as [[s1|e1] h1] eqn:H1; [|discriminate].
  destruct (get_anomaly_score self g2) as [[s2|e2] h2] eqn:H2; [|discriminate].
  intros E1 E2. injection E1 as <- _. injection E2 as <- _.
  destruct (get_anomaly_score_ok _ _ _ _ H1) as (l1 & r1 & Hl1 & Hr1 & _ & -> & _).
  destruct (get_anomaly_score_ok _ _ _ _ H2) as (l2 & r2 & Hl2 & Hr2 & _ & -> & _).
  rewrite Hl1 in Hl2. injection Hl2 as <-.
  rewrite Hr1 in Hr2. injection Hr2 as <-.
  reflexivity.
Qed.

End RankingTheorems.

Lemma tall_get_anomaly_indices {sorter : ArgSort} (c : R) (k : Z) :
  INR 4 * c = IZR k ->
  get_anomaly_indices (engine := capped_engine) (sample tall_matrix c)
                      (generator [0; 0]%nat)
  = (Ok (py_slice_to
           (ranking [tall_score; tall_score; tall_score; tall_score]) k),
     drawn (generator [0; 0]%nat)).
Proof.
  intros Hk. rewrite get_anomaly_indices_run, tall_get_anomaly_score.
  now rewrite (np_ceil_IZR _ k).
Qed.

Lemma tall_predict {sorter : ArgSort} (c : R) (k : Z) :
  INR 4 * c = IZR k ->
  predict (engine := capped_engine) (sample tall_matrix c) (generator [0; 0]%nat)
  = (Ok (np_isin_range 4
           (py_slice_to
              (ranking [tall_score; tall_score; tall_score; tall_score]) k)),
     drawn (generator [0; 0]%nat)).
Proof.
  intros Hk. rewrite predict_run, tall_get_anomaly_score.
  now rewrite (np_ceil_IZR _ k).
Qed.

Lemma quarter_of_four : INR 4 * (1 / 4) = 1.
Proof. simpl. lra. Qed.





(** C8 fails on the code.  A raw matrix of four samples and five features
    is given to [__init__] with the default arguments.  With the generator
    about to output 0, 0, 3, 3, a first call of [predict] draws the positions
    0 and 1 and returns labels; a second call on the same object draws the
    positions 3 and 4, whose reconstructions coincide, and raises the
    assertion error.  The draw uses NumPy's module-level generator, which
    [random_state] does not seed. *)
Theorem predict_twice_differs :
  exists self labels,
    init wide_matrix default_contamination default_kernel default_verbose
         default_gamma default_random_state = Ok self
    /\ predict (engine := capped_engine) (sorter := stable_argsort)
         self (generator [0; 0; 3; 3]%nat)
       = (Ok labels, drawn (generator [0; 0; 3; 3]%nat))
    /\ predict (engine := capped_engine) (sorter := stable_argsort)
         self (drawn (generator [0; 0; 3; 3]%nat))
       = (Raise (AssertionError description),
          drawn (drawn (generator [0; 0; 3; 3]%nat))).
Proof.
  exists (sample wide_matrix default_contamination). eexists.
  split; [apply init_wide_matrix|]. split.
  - rewrite predict_run, wide_get_anomaly_score_01 by reflexivity. reflexivity.
  - rewrite predict_run, wide_get_anomaly_score_34 by reflexivity. reflexivity.
Qed.

(* ================================================================== *)
(** ** Standardization of a zero-variance column (claim C6) *)

Lemma np_sum_zero_all_zero v :
  Forall (Rle 0) v -> np_sum v = 0 -> Forall (fun x => x = 0) v.
Proof.
  induction 1 as [|x v Hx Hv IH]; simpl; intros Hs; constructor.
  - pose proof (np_sum_nonneg v Hv). unfold np_sum in *. lra.
  - apply IH. pose proof (np_sum_nonneg v Hv). unfold np_sum in *. lra.
Qed.

Lemma zero_variance_constant (v : vector) (x : R) :
  np_var v = 0 -> In x v -> x = np_mean v.
Proof.
  intros Hvar Hin. unfold np_var in Hvar. unfold np_mean at 1 in Hvar.
  rewrite length_map in Hvar.
  assert (Hn : 0 < INR (length v)).
  { apply lt_0_INR. destruct v; [contradiction|simpl; lia]. }
  assert (Hsum : np_sum (map (fun y => Rsqr (y - np_mean v)) v) = 0).
  { apply (Rmult_eq_reg_r (/ INR (length v))).
    - rewrite Rmult_0_l. exact Hvar.
    - apply Rinv_neq_0_compat. lra. }
  apply np_sum_zero_all_zero in Hsum.
  - rewrite Forall_map, Forall_forall in Hsum.
    specialize (Hsum x Hin). simpl in Hsum.
    apply Rsqr_0_uniq in Hsum. lra.
  - rewrite Forall_map. apply Forall_forall. intros y _. apply Rle_0_sqr.
Qed.

Lemma rectangular_row_length (X : matrix) (i : nat) :
  rectangular X = true -> (i < length X)%nat ->
  length (nth i X []) = length (hd [] X).
Proof.
  unfold rectangular. rewrite forallb_forall. intros H Hi.
  apply Nat.eqb_eq, H, nth_In, Hi.
Qed.

(** C6, as amended.  A raw matrix that is rectangular with at least one row
    and one column is standardized without error, whatever the variance of
    its columns; a column of zero variance is divided by 1 and comes out as
    a column of zeros. *)
Theorem init_zero_variance_column (raw : matrix) (contamination : R)
    (kernel : kernel_name) (verbose : Z) (gamma : option R) (random_state : Z) :
  rectangular raw = true ->
  (1 <= length raw)%nat ->
  (1 <= length (hd [] raw))%nat ->
  exists m,
    init raw contamination kernel verbose gamma random_state
    = Ok (mkKPCA_Recon_Error m contamination kernel gamma verbose random_state)
    /\ length m = length raw
    /\ forall j, (j < length (hd [] raw))%nat ->
         np_var (column j raw) = 0 ->
         scale_ (column j raw) = 1
         /\ forall i, (i < length raw)%nat -> nth j (nth i m []) 0 = 0.
Proof.
  intros Hrect Hn Hd. unfold init, StandardScaler_fit_transform.
  rewrite Hrect. simpl negb. cbv iota.
  destruct (Nat.eqb_spec (length raw) 0) as [E|_]; [lia|].
  destruct (Nat.eqb_spec (length (hd [] raw)) 0) as [E|_]; [lia|].
  eexists. split; [reflexivity|]. split; [apply length_map|].
  intros j Hj Hvar. split.
  - unfold scale_, handle_zeros_in_scale. rewrite Hvar, sqrt_0.
    destruct (Req_EM_T 0 0); [reflexivity|congruence].
  - intros i Hi.
    rewrite (nth_map_lt _ raw i (@nil R)) by assumption.
    rewrite (nth_map_lt _ _ j 0%nat)
      by (rewrite length_seq, rectangular_row_length; assumption).
    rewrite seq_nth by (rewrite rectangular_row_length; assumption).
    simpl.
    rewrite (zero_variance_constant (column j raw) (nth j (nth i raw []) 0) Hvar).
    + unfold Rdiv. rewrite Rminus_diag. apply Rmult_0_l.
    + unfold column. apply (in_map (fun row => nth j row 0)), nth_In, Hi.
Qed.

(** Two samples whose first feature is constant. *)
Lemma init_zero_variance_column_witness :
  exists m,
    init constant_column_matrix default_contamination default_kernel
         default_verbose default_gamma default_random_state
    = Ok (mkKPCA_Recon_Error m default_contamination default_kernel
            default_gamma default_verbose default_random_state)
    /\ length m = length constant_column_matrix
    /\ forall j, (j < length (hd [] constant_column_matrix))%nat ->
         np_var (column j constant_column_matrix) = 0 ->
         scale_ (column j constant_column_matrix) = 1
         /\ forall i, (i < length constant_column_matrix)%nat ->
              nth j (nth i m []) 0 = 0.
Proof.
  apply (init_zero_variance_column constant_column_matrix default_contamination
           default_kernel default_verbose default_gamma default_random_state).
  - reflexivity.
  - simpl. lia.
  - simpl. lia.
Defined.

(** C6, as stated, fails.  The first column of the raw matrix has zero
    variance, and [__init__] raises nothing: the column is standardized to
    zeros and the other one to -1 and 1. *)
Lemma init_zero_variance_counterexample :
  np_var (column 0 constant_column_matrix) = 0
  /\ init constant_column_matrix default_contamination default_kernel
          default_verbose default_gamma default_random_state
     = Ok (sample [[0; -1]; [0; 1]] default_contamination).
Proof.
  assert (H0 : np_var (column 0 constant_column_matrix) = 0).
  { simpl. rewrite np_var_pair. unfold Rsqr. field. }
  split; [exact H0|].
  unfold init, StandardScaler_fit_transform, sample. simpl.
  assert (S0 : scale_ [1; 1] = 1).
  { unfold scale_, handle_zeros_in_scale.
    replace (np_var [1; 1]) with 0 by (rewrite np_var_pair; unfold Rsqr; field).
    rewrite sqrt_0. destruct (Req_EM_T 0 0); [reflexivity|congruence]. }
  assert (S1 : scale_ [2; 3] = 1 / 2).
  { unfold scale_, handle_zeros_in_scale. rewrite np_var_pair.
    replace (Rsqr ((2 - 3) / 2)) with (Rsqr (1 / 2)) by (unfold Rsqr; field).
    rewrite sqrt_Rsqr by lra.
    destruct (Req_EM_T (1 / 2) 0); [exfalso; lra|reflexivity]. }
  rewrite S0, S1, !np_mean_pair.
  repeat (apply f_equal || apply f_equal2 || f_equal); try reflexivity; field.
Qed.

(* ================================================================== *)
(** ** Further properties: the reconstruction series *)

Lemma list_comprehension_first_failure {A B} (f : A -> result B) xs x ys e :
  (forall a, In a xs -> exists b, f a = Ok b) ->
  f x = Raise e ->
  list_comprehension f (xs ++ x :: ys) = Raise e.
Proof.
  intros Hok Hx. induction xs as [|a xs IH]; simpl.
  - now rewrite Hx.
  - destruct (Hok a (or_introl eq_refl)) as [b ->].
    rewrite IH; [reflexivity|]. intros a' Ha'. apply Hok. now right.
Qed.

Lemma np_all_eq_sym a b : np_all_eq a b = np_all_eq b a.
Proof.
  destruct (np_all_eq a b) eqn:E1, (np_all_eq b a) eqn:E2; try reflexivity.
  - apply np_all_eq_true in E1. subst b.
    assert (np_all_eq a a = true) by now apply np_all_eq_true. congruence.
  - apply np_all_eq_true in E2. subst b.
    assert (np_all_eq a a = true) by now apply np_all_eq_true. congruence.
Qed.

Section SeriesProperties.

Context {engine : KernelPCA}.

Lemma recon_series_with_verbose self v :
  recon_series (with_verbose self v) = recon_series self.
Proof. now rewrite !recon_series_comprehension. Qed.

Lemma recon_series_shapes self recons :
  recon_series self = Ok recons ->
  Forall (fun m => shape m = shape (self_matrix self)) recons.
Proof.
  intros Hs. apply Forall_forall. intros m Hin.
  destruct (In_nth _ _ [] Hin) as (k & Hk & <-).
  assert (Hk' : (k < snd (shape (self_matrix self)))%nat)
    by (rewrite <- (recon_series_length _ _ Hs); exact Hk).
  exact (reconstruct_shape _ _ _ (recon_series_nth _ _ _ Hs Hk')).
Qed.

(** X2.  When [reconstruct_matrix] returns, the data has at least two
    columns, the series holds one reconstruction per rank 1 to [d], in rank
    order, every reconstruction has the shape of the data, two of them at
    distinct positions differ, and the generator has advanced by one draw. *)
Theorem reconstruct_matrix_postcondition self g recons g' :
  reconstruct_matrix self g = (Ok recons, g') ->
  (2 <= snd (shape (self_matrix self)))%nat
  /\ length recons = snd (shape (self_matrix self))
  /\ (forall k, (k < snd (shape (self_matrix self)))%nat ->
        reconstruct self (S k) = Ok (nth k recons []))
  /\ Forall (fun m => shape m = shape (self_matrix self)) recons
  /\ (exists i j, (i < length recons)%nat /\ (j < length recons)%nat /\ i <> j
                  /\ nth i recons [] <> nth j recons [])
  /\ g' = drawn g.
Proof.
  intros Hrun.
  destruct (reconstruct_matrix_ok _ _ _ _ Hrun) as (Hs & Hd & Hg).
  pose proof (recon_series_length _ _ Hs) as Hlen.
  split; [assumption|]. split; [assumption|].
  split; [intros k Hk; now apply recon_series_nth|].
  split; [now apply recon_series_shapes|].
  split; [|assumption].
  rewrite reconstruct_matrix_run, Hs in Hrun.
  destruct (np_random_choice2_distinct _ g Hd) as (i & j & Hdraw & Hi & Hj & Hij).
  rewrite Hdraw in Hrun.
  destruct (np_all_eq (nth i recons []) (nth j recons [])) eqn:E; [discriminate|].
  exists i, j. unfold matrix, vector in *. repeat split; try lia.
  intros Heq. apply np_all_eq_true in Heq. congruence.
Qed.

(** X3.  When the reconstructions of the ranks below [k] are built and the
    one of rank [k] raises, whether in the decomposition or in the shape
    assertion, [reconstruct_matrix] raises that exception and draws nothing
    from the generator; so do [get_anomaly_score] and, for every sort,
    [predict], once the spectrum is computed. *)
Theorem first_failing_rank_propagates {sorter : ArgSort} self g k e :
  (1 <= k <= snd (shape (self_matrix self)))%nat ->
  (forall j, (1 <= j < k)%nat -> exists m, reconstruct self j = Ok m) ->
  reconstruct self k = Raise e ->
  reconstruct_matrix self g = (Raise e, g)
  /\ (forall ratios, get_ev_ratio self = Ok ratios ->
        get_anomaly_score self g = (Raise e, g)
        /\ predict self g = (Raise e, g)).
Proof.
  intros Hk Hbelow Hfail.
  assert (Hs : recon_series self = Raise e).
  { rewrite recon_series_comprehension.
    replace (seq 1 (snd (shape (self_matrix self))))
      with (seq 1 (k - 1) ++ k :: seq (S k) (snd (shape (self_matrix self)) - k)).
    - apply list_comprehension_first_failure; [|assumption].
      intros j Hj. apply in_seq in Hj. apply Hbelow. lia.
    - replace (k :: seq (S k) (snd (shape (self_matrix self)) - k))
        with (seq (1 + (k - 1)) (S (snd (shape (self_matrix self)) - k)))
        by (simpl; repeat f_equal; lia).
      rewrite <- seq_app. f_equal. lia. }
  assert (Hrm : reconstruct_matrix self g = (Raise e, g))
    by now rewrite reconstruct_matrix_run, Hs.
  split; [assumption|].
  intros ratios Hev.
  assert (Hscore : get_anomaly_score self g = (Raise e, g))
    by now rewrite get_anomaly_score_run, Hev, Hrm.
  split; [assumption|]. now rewrite predict_run, Hscore.
Qed.

(** X4.  When the spectrum cannot be computed, [get_anomaly_score],
    [get_anomaly_indices] and [predict] raise the exception of
    [get_ev_ratio], whatever the reconstructions would do, and draw nothing
    from the generator. *)
Theorem spectrum_failure_propagates {sorter : ArgSort} self g e :
  get_ev_ratio self = Raise e ->
  get_anomaly_score self g = (Raise e, g)
  /\ get_anomaly_indices self g = (Raise e, g)
  /\ predict self g = (Raise e, g).
Proof.
  intros Hev.
  assert (Hscore : get_anomaly_score self g = (Raise e, g))
    by now rewrite get_anomaly_score_run, Hev.
  split; [assumption|]. split.
  - now rewrite get_anomaly_indices_run, Hscore.
  - now rewrite predict_run, Hscore.
Qed.

(** X1.  The value of [verbose] changes no result: the loop taken when it is
    truthy and the comprehension taken when it is falsy build the same
    series, so every method returns or raises the same with the same
    generator. *)
Theorem verbose_irrelevant {sorter : ArgSort} self v g :
  reconstruct_matrix (with_verbose self v) g = reconstruct_matrix self g
  /\ get_anomaly_score (with_verbose self v) g = get_anomaly_score self g
  /\ get_anomaly_indices (with_verbose self v) g = get_anomaly_indices self g
  /\ predict (with_verbose self v) g = predict self g.
Proof.
  assert (Hrm : reconstruct_matrix (with_verbose self v) g
                = reconstruct_matrix self g).
  { rewrite !reconstruct_matrix_run, recon_series_with_verbose. reflexivity. }
  assert (Hscore : get_anomaly_score (with_verbose self v) g
                   = get_anomaly_score self g).
  { rewrite !get_anomaly_score_run, Hrm. reflexivity. }
  split; [assumption|]. split; [assumption|]. split.
  - rewrite !get_anomaly_indices_run, Hscore. reflexivity.
  - rewrite !predict_run, Hscore. reflexivity.
Qed.

(** X5.  A call of [predict] draws from the generator at most once: the
    generator is left as it was or advanced by one draw of two positions; it
    is advanced whenever [predict] returns, and left as it was when the data
    has fewer than two columns. *)
Theorem predict_generator_advance {sorter : ArgSort} self g :
  (snd (predict self g) = g \/ snd (predict self g) = drawn g)
  /\ (forall labels g', predict self g = (Ok labels, g') -> g' = drawn g)
  /\ ((snd (shape (self_matrix self)) < 2)%nat -> snd (predict self g) = g).
Proof.
  rewrite predict_run, get_anomaly_score_run, reconstruct_matrix_run.
  destruct (get_ev_ratio self) as [ratios|e].
  2:{ simpl. split; [now left|]. split; [intros; discriminate|reflexivity]. }
  destruct (recon_series self) as [ms|e].
  2:{ simpl. split; [now left|]. split; [intros; discriminate|reflexivity]. }
  destruct (le_lt_dec 2 (snd (shape (self_matrix self)))) as [Hd|Hd].
  - destruct (np_random_choice2_distinct _ g Hd) as (i & j & -> & _).
    destruct (np_all_eq _ _); simpl.
    + split; [now right|].
      split; [intros; discriminate|intros H; apply Nat.lt_nge in H; contradiction].
    + split; [now right|].
      split; [|intros H; apply Nat.lt_nge in H; contradiction].
      intros labels g' H. now injection H.
  - destruct (np_random_choice2_small _ g Hd) as (msg & ->).
    simpl. split; [now left|]. split; [intros; discriminate|reflexivity].
Qed.

(** X6.  With exactly two columns the draw can only fall on positions 0
    and 1, so the outcome of the sanity check does not depend on the
    generator: [reconstruct_matrix] raises the assertion error when the two
    reconstructions are equal and returns them otherwise, and two calls of
    [predict] have the same outcome whatever the generator. *)
Theorem two_columns_outcome_fixed {sorter : ArgSort} self recons :
  snd (shape (self_matrix self)) = 2%nat ->
  recon_series self = Ok recons ->
  (forall g,
      reconstruct_matrix self g
      = (if np_all_eq (nth 0 recons []) (nth 1 recons [])
         then Raise (AssertionError description) else Ok recons,
         drawn g))
  /\ (forall g1 g2, fst (predict self g1) = fst (predict self g2)).
Proof.
  intros Hd Hs.
  assert (Hrm : forall g,
             reconstruct_matrix self g
             = (if np_all_eq (nth 0 recons []) (nth 1 recons [])
                then Raise (AssertionError description) else Ok recons,
                drawn g)).
  { intros g. rewrite reconstruct_matrix_run, Hs, Hd.
    destruct (np_random_choice2_distinct 2 g (le_n 2))
      as (i & j & -> & Hi & Hj & Hij).
    assert (Hij' : (i = 0 /\ j = 1)%nat \/ (i = 1 /\ j = 0)%nat) by lia.
    destruct Hij' as [[-> ->]|[-> ->]].
    - now destruct (np_all_eq _ _).
    - rewrite (np_all_eq_sym (nth 1 recons []) (nth 0 recons [])).
      now destruct (np_all_eq _ _). }
  split; [assumption|].
  intros g1 g2. rewrite !predict_run, !get_anomaly_score_run, !Hrm.
  destruct (get_ev_ratio self); [|reflexivity].
  now destruct (np_all_eq _ _).
Qed.

End SeriesProperties.

(** The postcondition on the four samples of three features. *)
Lemma reconstruct_matrix_postcondition_witness :
  (2 <= snd (shape tall_matrix))%nat
  /\ length tall_series = snd (shape tall_matrix)
  /\ (forall k, (k < snd (shape tall_matrix))%nat ->
        reconstruct (engine := capped_engine)
          (sample tall_matrix default_contamination) (S k)
        = Ok (nth k tall_series []))
  /\ Forall (fun m => shape m = shape tall_matrix) tall_series
  /\ (exists i j, (i < length tall_series)%nat /\ (j < length tall_series)%nat
                  /\ i <> j /\ nth i tall_series [] <> nth j tall_series [])
  /\ drawn (generator [0; 0]%nat) = drawn (generator [0; 0]%nat).
Proof.
  exact (reconstruct_matrix_postcondition (engine := capped_engine)
           (sample tall_matrix default_contamination) (generator [0; 0]%nat)
           tall_series (drawn (generator [0; 0]%nat))
           (tall_reconstruct_matrix default_contamination)).
Defined.

(** A reconstruction of rank 2 with a row missing: the shape assertion is
    what every method raises. *)
Lemma first_failing_rank_propagates_witness :
  reconstruct_matrix (engine := misshapen_engine)
    (sample tall_matrix default_contamination) (generator [0; 0]%nat)
  = (Raise (AssertionError assert_description), generator [0; 0]%nat)
  /\ (forall ratios,
        get_ev_ratio (engine := misshapen_engine)
          (sample tall_matrix default_contamination) = Ok ratios ->
        get_anomaly_score (engine := misshapen_engine)
          (sample tall_matrix default_contamination) (generator [0; 0]%nat)
        = (Raise (AssertionError assert_description), generator [0; 0]%nat)
        /\ predict (engine := misshapen_engine) (sorter := stable_argsort)
             (sample tall_matrix default_contamination) (generator [0; 0]%nat)
           = (Raise (AssertionError assert_description), generator [0; 0]%nat)).
Proof.
  apply (first_failing_rank_propagates (engine := misshapen_engine)
           (sorter := stable_argsort)
           (sample tall_matrix default_contamination) (generator [0; 0]%nat)
           2%nat (AssertionError assert_description)).
  - simpl. lia.
  - intros j Hj. assert (j = 1%nat) as -> by lia. eexists. reflexivity.
  - reflexivity.
Defined.

(** A decomposition that fails on the spectrum. *)
Lemma spectrum_failure_propagates_witness :
  get_anomaly_score (engine := spectrum_failing_engine)
    (sample tall_matrix default_contamination) (generator [0; 0]%nat)
  = (Raise (LibraryError "the kernel matrix cannot be decomposed"),
     generator [0; 0]%nat)
  /\ get_anomaly_indices (engine := spectrum_failing_engine)
       (sorter := stable_argsort)
       (sample tall_matrix default_contamination) (generator [0; 0]%nat)
     = (Raise (LibraryError "the kernel matrix cannot be decomposed"),
        generator [0; 0]%nat)
  /\ predict (engine := spectrum_failing_engine) (sorter := stable_argsort)
       (sample tall_matrix default_contamination) (generator [0; 0]%nat)
     = (Raise (LibraryError "the kernel matrix cannot be decomposed"),
        generator [0; 0]%nat).
Proof.
  apply (spectrum_failure_propagates (engine := spectrum_failing_engine)
           (sorter := stable_argsort)
           (sample tall_matrix default_contamination) (generator [0; 0]%nat)).
  reflexivity.
Defined.

(** Four samples of two features. *)
Lemma two_columns_outcome_fixed_witness :
  (forall g,
      reconstruct_matrix (engine := capped_engine)
        (sample narrow_matrix default_contamination) g
      = (if np_all_eq (nth 0 narrow_series []) (nth 1 narrow_series [])
         then Raise (AssertionError description) else Ok narrow_series,
         drawn g))
  /\ (forall g1 g2,
        fst (predict (engine := capped_engine) (sorter := stable_argsort)
               (sample narrow_matrix default_contamination) g1)
        = fst (predict (engine := capped_engine) (sorter := stable_argsort)
                 (sample narrow_matrix default_contamination) g2)).
Proof.
  apply (two_columns_outcome_fixed (engine := capped_engine)
           (sorter := stable_argsort)
           (sample narrow_matrix default_contamination) narrow_series).
  - reflexivity.
  - reflexivity.
Defined.

(* ================================================================== *)
(** ** Further properties: the spectrum and the scores *)

Lemma np_sum_firstn_S (l : vector) (k : nat) :
  (k < length l)%nat ->
  np_sum (firstn (S k) l) = np_sum (firstn k l) + nth k l 0.
Proof.
  revert k; induction l as [|x l IH]; intros k Hk; simpl in *; [lia|].
  destruct k as [|k].
  - simpl. lra.
  - specialize (IH k ltac:(lia)). simpl in IH.
    change (np_sum (x :: firstn k l)) with (x + np_sum (firstn k l)).
    destruct l as [|y l]; [simpl in *; lia|].
    simpl firstn in *. simpl np_sum in *. simpl nth in *. lra.
Qed.

Lemma cumsum_from_scale (c acc : R) (l : vector) :
  cumsum_from (c * acc) (map (Rmult c) l) = map (Rmult c) (cumsum_from acc l).
Proof.
  revert acc; induction l as [|x l IH]; intros acc; simpl; [reflexivity|].
  rewrite <- Rmult_plus_distr_l. now rewrite IH.
Qed.

Lemma np_sum_scale (c : R) (l : vector) :
  np_sum (map (Rmult c) l) = c * np_sum l.
Proof. induction l as [|x l IH]; simpl; [lra|]. unfold np_sum in *. lra. Qed.

Lemma ev_ratio_scale (c : R) (l : vector) :
  c <> 0 ->
  map (fun s => s / np_sum (map (Rmult c) l)) (np_cumsum (map (Rmult c) l))
  = map (fun s => s / np_sum l) (np_cumsum l).
Proof.
  intros Hc. unfold np_cumsum.
  replace 0 with (c * 0) at 1 by lra.
  rewrite cumsum_from_scale, np_sum_scale, map_map.
  apply map_ext. intros s. unfold Rdiv. rewrite Rinv_mult.
  replace (c * s * (/ c * / np_sum l)) with (s * (c * / c) * / np_sum l) by ring.
  rewrite Rinv_r by assumption. ring.
Qed.

Lemma np_sum_map_le {A} (f h : A -> R) (l : list A) :
  (forall x, In x l -> f x <= h x) ->
  np_sum (map f l) <= np_sum (map h l).
Proof.
  induction l as [|x l IH]; intros H; simpl; [lra|].
  pose proof (H x (or_introl eq_refl)).
  assert (np_sum (map f l) <= np_sum (map h l))
    by (apply IH; intros; apply H; now right).
  unfold np_sum in *. lra.
Qed.

Lemma compute_vector_length_zero (v : vector) :
  compute_vector_length v = 0 <-> Forall (fun x => x = 0) v.
Proof.
  unfold compute_vector_length. cbv zeta.
  assert (Hnn : Forall (Rle 0) (map Rsqr v))
    by (rewrite Forall_map; apply Forall_forall; intros; apply Rle_0_sqr).
  split.
  - intros H. apply sqrt_eq_0 in H; [|now apply np_sum_nonneg].
    apply np_sum_zero_all_zero in H; [|assumption].
    rewrite Forall_map in H. eapply Forall_impl; [|exact H].
    intros x Hx. now apply Rsqr_0_uniq.
  - intros H.
    assert (E : np_sum (map Rsqr v) = 0).
    { clear Hnn. induction H as [|x l Hx _ IH]; [reflexivity|].
      subst x. change (np_sum (map Rsqr (0 :: l)))
        with (Rsqr 0 + np_sum (map Rsqr l)).
      rewrite IH. unfold Rsqr. lra. }
    rewrite E. apply sqrt_0.
Qed.

Lemma cumulative_variance_ratio_range (lambdas : vector) (k : nat) :
  Forall (Rlt 0) lambdas -> (k < length lambdas)%nat ->
  0 < cumulative_variance_ratio lambdas (S k) <= 1.
Proof.
  intros Hpos Hk.
  assert (Hne : lambdas <> []) by (destruct lambdas; [simpl in Hk; lia|discriminate]).
  destruct (ev_ratio_properties lambdas Hpos Hne) as (Hr & _ & _).
  rewrite <- ev_ratio_nth by assumption.
  rewrite Forall_forall in Hr. apply Hr, nth_In.
  now rewrite ev_ratio_length.
Qed.

Section SpectrumProperties.

Context {engine : KernelPCA}.

(** X7.  The differences of consecutive elements of the ratio sequence are
    the shares of the eigenvalues in their sum: the first element is the
    share of the first eigenvalue and element [k+1] exceeds element [k] by
    the share of eigenvalue [k+1]; with positive eigenvalues the sequence is
    strictly increasing. *)
Theorem ev_ratio_increments self lambdas :
  fit_lambdas (kpca_args self None) (self_matrix self) = Ok lambdas ->
  np_sum lambdas <> 0 ->
  exists ratios,
    get_ev_ratio self = Ok ratios
    /\ (lambdas <> [] -> nth 0 ratios 0 = nth 0 lambdas 0 / np_sum lambdas)
    /\ (forall k, (S k < length lambdas)%nat ->
          nth (S k) ratios 0 - nth k ratios 0
          = nth (S k) lambdas 0 / np_sum lambdas)
    /\ (Forall (Rlt 0) lambdas ->
        forall k, (S k < length lambdas)%nat ->
          nth k ratios 0 < nth (S k) ratios 0).
Proof.
  intros Hl HT.
  exists (map (fun s => s / np_sum lambdas) (np_cumsum lambdas)).
  split; [now apply get_ev_ratio_ok|].
  assert (Hstep : forall k, (S k < length lambdas)%nat ->
            nth (S k) (map (fun s => s / np_sum lambdas) (np_cumsum lambdas)) 0
            - nth k (map (fun s => s / np_sum lambdas) (np_cumsum lambdas)) 0
            = nth (S k) lambdas 0 / np_sum lambdas).
  { intros k Hk. rewrite !ev_ratio_nth by lia.
    unfold cumulative_variance_ratio.
    rewrite (np_sum_firstn_S lambdas (S k)) by assumption.
    unfold Rdiv. ring. }
  split; [|split].
  - intros Hne. rewrite ev_ratio_nth
      by (destruct lambdas; [congruence|simpl; lia]).
    unfold cumulative_variance_ratio.
    rewrite (np_sum_firstn_S lambdas 0)
      by (destruct lambdas; [congruence|simpl; lia]).
    simpl. unfold Rdiv. ring.
  - exact Hstep.
  - intros Hpos k Hk. specialize (Hstep k Hk).
    assert (0 < nth (S k) lambdas 0 / np_sum lambdas).
    { apply Rdiv_lt_0_compat.
      - rewrite Forall_forall in Hpos. apply Hpos, nth_In. exact Hk.
      - apply np_sum_pos; [assumption|].
        destruct lambdas; [simpl in Hk; lia|discriminate]. }
    lra.
Qed.

(** X8.  The scores depend on the eigenvalues only through their
    proportions: multiplying every eigenvalue by one non-zero factor leaves
    the ratio sequence and the outcome of [get_anomaly_score] unchanged. *)
Theorem score_invariant_under_spectrum_scale c self g :
  c <> 0 ->
  get_ev_ratio (engine := scaled_engine c engine) self = get_ev_ratio self
  /\ get_anomaly_score (engine := scaled_engine c engine) self g
     = get_anomaly_score self g.
Proof.
  intros Hc.
  assert (Hev : get_ev_ratio (engine := scaled_engine c engine) self
                = get_ev_ratio self).
  { unfold get_ev_ratio. simpl.
    destruct (fit_lambdas (kpca_args self None) (self_matrix self)) as [l|e];
      [|reflexivity].
    now rewrite ev_ratio_scale. }
  split; [assumption|].
  rewrite !get_anomaly_score_run, Hev.
  destruct (get_ev_ratio self); reflexivity.
Qed.

(** X9.  With a positive spectrum every weight lies in (0, 1], so the score
    of a row lies between 0 and the plain sum of its residual norms over the
    ranks used. *)
Theorem anomaly_score_bounded self g scores g' lambdas recons :
  fit_lambdas (kpca_args self None) (self_matrix self) = Ok lambdas ->
  Forall (Rlt 0) lambdas ->
  recon_series self = Ok recons ->
  get_anomaly_score self g = (Ok scores, g') ->
  forall i, (i < length (self_matrix self))%nat ->
    0 <= nth i scores 0
         <= residual_sum self recons i
              (Nat.min (snd (shape (self_matrix self))) (length lambdas)).
Proof.
  intros Hl Hpos Hs Hrun i Hi.
  destruct (get_anomaly_score_ok _ _ _ _ Hrun)
    as (l' & r' & Hl' & Hs' & _ & -> & _).
  rewrite Hl in Hl'. injection Hl' as <-.
  rewrite Hs in Hs'. injection Hs' as <-.
  rewrite anomaly_scores_sum_nth by assumption.
  rewrite (recon_series_length _ _ Hs).
  unfold weighted_residual_sum, residual_sum.
  set (t := Nat.min (snd (shape (self_matrix self))) (length lambdas)).
  assert (Hterm : forall k, In k (seq 0 t) ->
            0 <= cumulative_variance_ratio lambdas (S k)
                 * residual_norm self (nth k recons []) i
              <= residual_norm self (nth k recons []) i).
  { intros k Hk. apply in_seq in Hk.
    assert (Hk' : (k < length lambdas)%nat) by (subst t; lia).
    pose proof (cumulative_variance_ratio_range lambdas k Hpos Hk') as [H0 H1].
    pose proof (compute_vector_length_nonneg
                  (vec_sub (nth i (self_matrix self) []) (nth i (nth k recons []) [])))
      as Hn.
    fold (residual_norm self (nth k recons []) i) in Hn.
    split.
    - apply Rmult_le_pos; lra.
    - rewrite <- (Rmult_1_l (residual_norm self (nth k recons []) i)) at 2.
      apply Rmult_le_compat_r; lra. }
  split.
  - apply np_sum_nonneg. rewrite Forall_map. apply Forall_forall.
    intros k Hk. apply Hterm, Hk.
  - apply np_sum_map_le. intros k Hk. apply Hterm, Hk.
Qed.

(** X10.  With a positive spectrum the score of a row is 0 exactly when,
    at every rank used, the residual of the row is the zero vector, that is,
    the reconstruction reproduces the row. *)
Theorem anomaly_score_zero_iff self g scores g' lambdas recons :
  fit_lambdas (kpca_args self None) (self_matrix self) = Ok lambdas ->
  Forall (Rlt 0) lambdas ->
  recon_series self = Ok recons ->
  get_anomaly_score self g = (Ok scores, g') ->
  forall i, (i < length (self_matrix self))%nat ->
    nth i scores 0 = 0
    <-> (forall k,
           (k < Nat.min (snd (shape (self_matrix self))) (length lambdas))%nat ->
           Forall (fun x => x = 0) (residual_row self (nth k recons []) i)).
Proof.
  intros Hl Hpos Hs Hrun i Hi.
  destruct (get_anomaly_score_ok _ _ _ _ Hrun)
    as (l' & r' & Hl' & Hs' & _ & -> & _).
  rewrite Hl in Hl'. injection Hl' as <-.
  rewrite Hs in Hs'. injection Hs' as <-.
  rewrite anomaly_scores_sum_nth by assumption.
  rewrite (recon_series_length _ _ Hs).
  unfold weighted_residual_sum.
  set (t := Nat.min (snd (shape (self_matrix self))) (length lambdas)).
  assert (Hratio : forall k, (k < t)%nat ->
            0 < cumulative_variance_ratio lambdas (S k)).
  { intros k Hk. apply cumulative_variance_ratio_range; [assumption|subst t; lia]. }
  assert (Hnorm : forall k, 0 <= residual_norm self (nth k recons []) i)
    by (intros k; apply compute_vector_length_nonneg).
  split.
  - intros Hzero k Hk.
    apply np_sum_zero_all_zero in Hzero.
    + rewrite Forall_map, Forall_forall in Hzero.
      specialize (Hzero k ltac:(apply in_seq; lia)). simpl in Hzero.
      apply compute_vector_length_zero.
      change (residual_norm self (nth k recons []) i = 0).
      specialize (Hratio k Hk). specialize (Hnorm k). nra.
    + rewrite Forall_map. apply Forall_forall. intros k' Hk'.
      apply in_seq in Hk'. apply Rmult_le_pos; [|apply Hnorm].
      left. apply Hratio. lia.
  - intros Hall.
    replace (map (fun k => cumulative_variance_ratio lambdas (S k)
                           * residual_norm self (nth k recons []) i) (seq 0 t))
      with (map (fun _ : nat => 0) (seq 0 t)).
    + clear. induction (seq 0 t); simpl; [reflexivity|].
      unfold np_sum in *. lra.
    + apply map_ext_in. intros k Hk. apply in_seq in Hk.
      assert (Hz : residual_norm self (nth k recons []) i = 0).
      { change (compute_vector_length (residual_row self (nth k recons []) i) = 0).
        apply compute_vector_length_zero, Hall. lia. }
      rewrite Hz. ring.
Qed.

End SpectrumProperties.

(** The ratio increments of the spectrum 3, 2, 1. *)
Lemma ev_ratio_increments_witness :
  exists ratios,
    get_ev_ratio (engine := capped_engine)
      (sample tall_matrix default_contamination) = Ok ratios
    /\ (sample_lambdas <> [] ->
        nth 0 ratios 0 = nth 0 sample_lambdas 0 / np_sum sample_lambdas)
    /\ (forall k, (S k < length sample_lambdas)%nat ->
          nth (S k) ratios 0 - nth k ratios 0
          = nth (S k) sample_lambdas 0 / np_sum sample_lambdas)
    /\ (Forall (Rlt 0) sample_lambdas ->
        forall k, (S k < length sample_lambdas)%nat ->
          nth k ratios 0 < nth (S k) ratios 0).
Proof.
  apply (ev_ratio_increments (engine := capped_engine)
           (sample tall_matrix default_contamination) sample_lambdas).
  - now apply sample_fit_lambdas.
  - unfold sample_lambdas. simpl. lra.
Defined.

(** The spectrum 3, 2, 1 doubled. *)
Lemma score_invariant_under_spectrum_scale_witness :
  get_ev_ratio (engine := scaled_engine 2 capped_engine)
    (sample tall_matrix default_contamination)
  = get_ev_ratio (engine := capped_engine)
      (sample tall_matrix default_contamination)
  /\ get_anomaly_score (engine := scaled_engine 2 capped_engine)
       (sample tall_matrix default_contamination) (generator [0; 0]%nat)
     = get_anomaly_score (engine := capped_engine)
         (sample tall_matrix default_contamination) (generator [0; 0]%nat).
Proof.
  apply (score_invariant_under_spectrum_scale (engine := capped_engine) 2
           (sample tall_matrix default_contamination) (generator [0; 0]%nat)).
  lra.
Defined.

(** The bounds on the scores of the four samples of three features. *)
Lemma anomaly_score_bounded_witness :
  0 <= nth 0 [tall_score; tall_score; tall_score; tall_score] 0
       <= residual_sum (sample tall_matrix default_contamination) tall_series 0
            (Nat.min (snd (shape tall_matrix)) (length sample_lambdas)).
Proof.
  apply (anomaly_score_bounded (engine := capped_engine)
           (sample tall_matrix default_contamination) (generator [0; 0]%nat)
           [tall_score; tall_score; tall_score; tall_score]
           (drawn (generator [0; 0]%nat)) sample_lambdas tall_series
           (sample_fit_lambdas tall_matrix default_contamination eq_refl)
           sample_lambdas_positive
           (tall_recon_series default_contamination)
           (tall_get_anomaly_score default_contamination) 0%nat).
  simpl. lia.
Defined.

(** The zero-score criterion on the four samples of three features. *)
Lemma anomaly_score_zero_iff_witness :
  nth 0 [tall_score; tall_score; tall_score; tall_score] 0 = 0
  <-> (forall k,
         (k < Nat.min (snd (shape tall_matrix)) (length sample_lambdas))%nat ->
         Forall (fun x => x = 0)
           (residual_row (sample tall_matrix default_contamination)
              (nth k tall_series []) 0)).
Proof.
  apply (anomaly_score_zero_iff (engine := capped_engine)
           (sample tall_matrix default_contamination) (generator [0; 0]%nat)
           [tall_score; tall_score; tall_score; tall_score]
           (drawn (generator [0; 0]%nat)) sample_lambdas tall_series
           (sample_fit_lambdas tall_matrix default_contamination eq_refl)
           sample_lambdas_positive
           (tall_recon_series default_contamination)
           (tall_get_anomaly_score default_contamination) 0%nat).
  simpl. lia.
Defined.

(* ================================================================== *)
(** ** Further properties: selection and labels *)

Lemma py_slice_to_firstn {A} (xs : list A) (k : Z) :
  py_slice_to xs k
  = firstn (if (0 <=? k)%Z then Z.to_nat k
            else Z.to_nat (Z.of_nat (length xs) + k)) xs.
Proof. unfold py_slice_to. now destruct (0 <=? k)%Z. Qed.

Lemma np_isin_range_nth (n : nat) (indices : list nat) (i : nat) :
  (i < n)%nat ->
  nth i (np_isin_range n indices) 0%Z
  = if existsb (Nat.eqb i) indices then 1%Z else 0%Z.
Proof.
  intros Hi. unfold np_isin_range.
  rewrite (nth_map_lt _ _ _ 0%nat) by now rewrite length_seq.
  now rewrite seq_nth.
Qed.

Lemma np_isin_range_one (n : nat) (indices : list nat) (i : nat) :
  (i < n)%nat -> nth i (np_isin_range n indices) 0%Z = 1%Z <-> In i indices.
Proof.
  intros Hi. rewrite np_isin_range_nth by assumption.
  rewrite <- existsb_eqb_In. destruct (existsb _ _); split; congruence.
Qed.

Lemma np_isin_range_zero (n : nat) (indices : list nat) (i : nat) :
  (i < n)%nat -> nth i (np_isin_range n indices) 0%Z = 0%Z <-> ~ In i indices.
Proof.
  intros Hi. rewrite np_isin_range_nth by assumption.
  rewrite <- existsb_eqb_In. destruct (existsb _ _); split; congruence.
Qed.

Lemma firstn_le_In {A} (k1 k2 : nat) (l : list A) (x : A) :
  (k1 <= k2)%nat -> In x (firstn k1 l) -> In x (firstn k2 l).
Proof.
  intros Hle Hin.
  replace (firstn k1 l) with (firstn k1 (firstn k2 l)) in Hin
    by (rewrite firstn_firstn; f_equal; lia).
  now apply firstn_In in Hin.
Qed.

Lemma two_columns_nonempty (X : matrix) :
  (2 <= snd (shape X))%nat -> (1 <= length X)%nat.
Proof. destruct X; simpl; lia. Qed.

Section SelectionProperties.

Context {engine : KernelPCA} {sorter : ArgSort}.

(** X15.  Raising the contamination only adds anomalies: for two
    contaminations [0 <= c1 <= c2] and one computation of the scores, every
    row labelled 1 under [c1] is labelled 1 under [c2]. *)
Theorem contamination_monotone self c1 c2 g scores g' :
  0 <= c1 <= c2 ->
  get_anomaly_score self g = (Ok scores, g') ->
  exists labels1 labels2,
    predict (with_contamination self c1) g = (Ok labels1, g')
    /\ predict (with_contamination self c2) g = (Ok labels2, g')
    /\ forall i, nth i labels1 0%Z = 1%Z -> nth i labels2 0%Z = 1%Z.
Proof.
  intros [H1 H12] Hscore.
  rewrite !predict_run.
  change (get_anomaly_score (with_contamination self c1) g)
    with (get_anomaly_score self g).
  change (get_anomaly_score (with_contamination self c2) g)
    with (get_anomaly_score self g).
  rewrite Hscore. eexists _, _. split; [reflexivity|]. split; [reflexivity|].
  simpl self_matrix. simpl self_contamination.
  set (n := length (self_matrix self)).
  assert (Hn : 0 <= INR n) by apply pos_INR.
  assert (Hk1 : (0 <= np_ceil (INR n * c1))%Z)
    by (apply np_ceil_nonneg, Rmult_le_pos; lra).
  assert (Hk12 : (np_ceil (INR n * c1) <= np_ceil (INR n * c2))%Z)
    by (apply Zceil_le, Rmult_le_compat_l; lra).
  rewrite !py_slice_to_nonneg by lia.
  intros i Hi.
  destruct (le_lt_dec n i) as [Hge|Hlt].
  - rewrite nth_overflow in Hi by (rewrite np_isin_range_length; exact Hge).
    discriminate.
  - apply np_isin_range_one in Hi; [|assumption].
    apply np_isin_range_one; [assumption|].
    eapply firstn_le_In; [|exact Hi]. lia.
Qed.

Hypothesis sorter_contract : argsort_contract sorter.


(** X12.  With a positive contamination at least one row is labelled 1,
    and a row of maximal score is among the rows labelled 1. *)
Theorem positive_contamination_flags_top_row self g scores g' :
  0 < self_contamination self ->
  (forall lambdas,
      fit_lambdas (kpca_args self None) (self_matrix self) = Ok lambdas ->
      lambdas <> []) ->
  get_anomaly_score self g = (Ok scores, g') ->
  exists labels a,
    predict self g = (Ok labels, g')
    /\ (a < length (self_matrix self))%nat
    /\ nth a labels 0%Z = 1%Z
    /\ forall b, (b < length (self_matrix self))%nat ->
         nth b scores 0 <= nth a scores 0.
Proof.
  intros Hc Hne Hscore.
  pose proof (get_anomaly_score_length _ _ _ _ Hne Hscore) as Hlen.
  destruct (get_anomaly_score_ok _ _ _ _ Hscore) as (_ & _ & _ & _ & Hd & _ & _).
  apply two_columns_nonempty in Hd.
  rewrite predict_run, Hscore.
  set (n := length (self_matrix self)) in *.
  assert (Hk : (1 <= np_ceil (INR n * self_contamination self))%Z).
  { pose proof (Zceil_bound (INR n * self_contamination self)) as [_ Hhi].
    assert (0 < INR n * self_contamination self)
      by (apply Rmult_lt_0_compat; [apply lt_0_INR; lia|assumption]).
    unfold np_ceil. apply Z.lt_pred_le. simpl. apply lt_IZR. lra. }
  rewrite py_slice_to_nonneg by lia.
  pose proof (ranking_length sorter_contract scores) as Hrl.
  pose proof (ranking_descending sorter_contract scores) as Hsorted.
  pose proof (ranking_In sorter_contract scores) as Hin.
  destruct (ranking scores) as [|a rest] eqn:Hr; [simpl in Hrl; lia|].
  eexists. exists a.
  assert (Ha : (a < n)%nat) by (rewrite <- Hlen; apply Hin; now left).
  split; [reflexivity|]. split; [assumption|]. split.
  - apply np_isin_range_one; [assumption|].
    destruct (Z.to_nat (np_ceil (INR n * self_contamination self))) eqn:E;
      [lia|]. now left.
  - intros b Hb. rewrite <- Hlen in Hb. apply Hin in Hb.
    inversion Hsorted as [|? ? _ Hall]; subst.
    destruct Hb as [<-|Hb]; [apply Rle_refl|].
    rewrite Forall_forall in Hall. now apply Hall.
Qed.

(** X13.  For every contamination, every row labelled 1 scores at least as
    high as every row labelled 0. *)
Theorem labels_separate_scores self g scores labels g' a b :
  (forall lambdas,
      fit_lambdas (kpca_args self None) (self_matrix self) = Ok lambdas ->
      lambdas <> []) ->
  get_anomaly_score self g = (Ok scores, g') ->
  predict self g = (Ok labels, g') ->
  (a < length (self_matrix self))%nat ->
  (b < length (self_matrix self))%nat ->
  nth a labels 0%Z = 1%Z ->
  nth b labels 0%Z = 0%Z ->
  nth b scores 0 <= nth a scores 0.
Proof.
  intros Hne Hscore Hrun Ha Hb Hla Hlb.
  pose proof (get_anomaly_score_length _ _ _ _ Hne Hscore) as Hlen.
  rewrite predict_run, Hscore in Hrun. injection Hrun as <-.
  rewrite py_slice_to_firstn in Hla, Hlb.
  apply np_isin_range_one in Hla; [|assumption].
  apply np_isin_range_zero in Hlb; [|assumption].
  eapply (top_scores sorter_contract); [exact Hla| |exact Hlb].
  now rewrite Hlen.
Qed.

(** X14.  The positions returned by [get_anomaly_indices] are distinct row
    positions, and [predict] labels 1 exactly the rows at these positions
    and 0 all the others. *)
Theorem predict_marks_anomaly_indices self g indices g' :
  (forall lambdas,
      fit_lambdas (kpca_args self None) (self_matrix self) = Ok lambdas ->
      lambdas <> []) ->
  get_anomaly_indices self g = (Ok indices, g') ->
  NoDup indices
  /\ (forall i, In i indices -> (i < length (self_matrix self))%nat)
  /\ exists labels,
       predict self g = (Ok labels, g')
       /\ length labels = length (self_matrix self)
       /\ (forall i, (i < length (self_matrix self))%nat ->
             (nth i labels 0%Z = 1%Z <-> In i indices)
             /\ (nth i labels 0%Z = 0%Z <-> ~ In i indices)).
Proof.
  intros Hne Hrun.
  rewrite get_anomaly_indices_run in Hrun. rewrite predict_run.
  destruct (get_anomaly_score self g) as [[scores|e] g1] eqn:Hscore;
    [|discriminate].
  injection Hrun as <- <-.
  pose proof (get_anomaly_score_length _ _ _ _ Hne Hscore) as Hlen.
  rewrite py_slice_to_firstn.
  split; [apply firstn_NoDup, (ranking_NoDup sorter_contract)|].
  split.
  - intros i Hi. apply firstn_In, (ranking_In sorter_contract) in Hi. lia.
  - eexists. split; [reflexivity|]. split; [apply np_isin_range_length|].
    intros i Hi. split.
    + now apply np_isin_range_one.
    + now apply np_isin_range_zero.
Qed.

End SelectionProperties.

Section GeneratorIndependence.

Context {engine : KernelPCA} {sorter : ArgSort}.

(** X16.  Calls that return do not depend on the generator: when two calls
    of [get_anomaly_score] on one object both return, from any two states of
    the generator, the score vectors are equal, and so are the positions
    returned by [get_anomaly_indices] and the labels returned by
    [predict]. *)
Theorem returned_results_independent_of_generator self g1 g2 scores1 scores2
    g1' g2' :
  get_anomaly_score self g1 = (Ok scores1, g1') ->
  get_anomaly_score self g2 = (Ok scores2, g2') ->
  scores1 = scores2
  /\ fst (get_anomaly_indices self g1) = fst (get_anomaly_indices self g2)
  /\ fst (predict self g1) = fst (predict self g2).
Proof.
  intros H1 H2.
  assert (E : scores1 = scores2).
  { destruct (get_anomaly_score_ok _ _ _ _ H1)
      as (l1 & r1 & Hl1 & Hr1 & _ & -> & _).
    destruct (get_anomaly_score_ok _ _ _ _ H2)
      as (l2 & r2 & Hl2 & Hr2 & _ & -> & _).
    rewrite Hl1 in Hl2. injection Hl2 as <-.
    rewrite Hr1 in Hr2. now injection Hr2 as <-. }
  subst scores2. split; [reflexivity|].
  now rewrite !get_anomaly_indices_run, !predict_run, H1, H2.
Qed.

End GeneratorIndependence.

(** On the four samples of three features the three reconstructions differ
    pairwise: every draw passes the sanity check. *)
Lemma tall_reconstruct_matrix_any c g :
  reconstruct_matrix (engine := capped_engine) (sample tall_matrix c) g
  = (Ok tall_series, drawn g).
Proof.
  rewrite reconstruct_matrix_run, tall_recon_series.
  change (snd (shape (self_matrix (sample tall_matrix c)))) with 3%nat.
  destruct (np_random_choice2_distinct 3 g ltac:(lia))
    as (i & j & -> & Hi & Hj & Hij).
  cbv beta iota.
  assert (Hdiff : np_all_eq (nth i tall_series []) (nth j tall_series []) = false).
  { destruct i as [|[|[|i]]]; [| | |lia];
      (destruct j as [|[|[|j]]]; [| | |lia]); try lia;
      first [ apply (np_all_eq_false_at _ _ 0 1); simpl; lra
            | apply (np_all_eq_false_at _ _ 0 2); simpl; lra ]. }
  now rewrite Hdiff.
Qed.

Lemma tall_get_anomaly_score_any c g :
  get_anomaly_score (engine := capped_engine) (sample tall_matrix c) g
  = (Ok [tall_score; tall_score; tall_score; tall_score], drawn g).
Proof.
  pose proof (tall_get_anomaly_score c) as H.
  rewrite get_anomaly_score_run in H |- *.
  rewrite (sample_get_ev_ratio tall_matrix c eq_refl) in H |- *.
  rewrite tall_reconstruct_matrix_any in H |- *.
  set (X := np_sum_axis0 _) in *. clearbody X.
  injection H as ->. reflexivity.
Qed.


Lemma tall_spectrum_nonempty c :
  forall lambdas,
    fit_lambdas (KernelPCA := capped_engine) (kpca_args (sample tall_matrix c) None)
                (self_matrix (sample tall_matrix c)) = Ok lambdas ->
    lambdas <> [].
Proof.
  intros lambdas H. rewrite (sample_fit_lambdas tall_matrix c eq_refl) in H.
  injection H as <-. discriminate.
Qed.

(** Contaminations 1/4 and 1/2 on the four samples of three features. *)
Lemma contamination_monotone_witness :
  exists labels1 labels2,
    predict (engine := capped_engine) (sorter := stable_argsort)
      (with_contamination (sample tall_matrix default_contamination) (1 / 4))
      (generator [0; 0]%nat)
    = (Ok labels1, drawn (generator [0; 0]%nat))
    /\ predict (engine := capped_engine) (sorter := stable_argsort)
         (with_contamination (sample tall_matrix default_contamination) (1 / 2))
         (generator [0; 0]%nat)
       = (Ok labels2, drawn (generator [0; 0]%nat))
    /\ forall i, nth i labels1 0%Z = 1%Z -> nth i labels2 0%Z = 1%Z.
Proof.
  apply (contamination_monotone (engine := capped_engine)
           (sorter := stable_argsort)
           (sample tall_matrix default_contamination) (1 / 4) (1 / 2)
           (generator [0; 0]%nat)
           [tall_score; tall_score; tall_score; tall_score]
           (drawn (generator [0; 0]%nat))).
  - lra.
  - apply tall_get_anomaly_score.
Defined.


(** Contamination 1/4 on four samples of equal score. *)
Lemma positive_contamination_flags_top_row_witness :
  exists labels a,
    predict (engine := capped_engine) (sorter := stable_argsort)
      (sample tall_matrix (1 / 4)) (generator [0; 0]%nat)
    = (Ok labels, drawn (generator [0; 0]%nat))
    /\ (a < length tall_matrix)%nat
    /\ nth a labels 0%Z = 1%Z
    /\ forall b, (b < length tall_matrix)%nat ->
         nth b [tall_score; tall_score; tall_score; tall_score] 0
         <= nth a [tall_score; tall_score; tall_score; tall_score] 0.
Proof.
  apply (positive_contamination_flags_top_row (engine := capped_engine)
           (sorter := stable_argsort) stable_argsort_contract
           (sample tall_matrix (1 / 4)) (generator [0; 0]%nat)
           [tall_score; tall_score; tall_score; tall_score]
           (drawn (generator [0; 0]%nat))).
  - simpl. lra.
  - apply tall_spectrum_nonempty.
  - apply tall_get_anomaly_score.
Defined.

(** Row 0 is labelled 1 and row 1 is labelled 0. *)
Lemma labels_separate_scores_witness :
  nth 1 [tall_score; tall_score; tall_score; tall_score] 0
  <= nth 0 [tall_score; tall_score; tall_score; tall_score] 0.
Proof.
  apply (labels_separate_scores (engine := capped_engine)
           (sorter := stable_argsort) stable_argsort_contract
           (sample tall_matrix (1 / 4)) (generator [0; 0]%nat)
           [tall_score; tall_score; tall_score; tall_score]
           [1; 0; 0; 0]%Z (drawn (generator [0; 0]%nat)) 0%nat 1%nat).
  - apply tall_spectrum_nonempty.
  - apply tall_get_anomaly_score.
  - rewrite (tall_predict (1 / 4) 1 quarter_of_four).
    now rewrite stable_ranking_ties.
  - simpl. lia.
  - simpl. lia.
  - reflexivity.
  - reflexivity.
Defined.

(** The single selected position 0 and the labels it gives. *)
Lemma predict_marks_anomaly_indices_witness :
  NoDup [0%nat]
  /\ (forall i, In i [0%nat] -> (i < length tall_matrix)%nat)
  /\ exists labels,
       predict (engine := capped_engine) (sorter := stable_argsort)
         (sample tall_matrix (1 / 4)) (generator [0; 0]%nat)
       = (Ok labels, drawn (generator [0; 0]%nat))
       /\ length labels = length tall_matrix
       /\ (forall i, (i < length tall_matrix)%nat ->
             (nth i labels 0%Z = 1%Z <-> In i [0%nat])
             /\ (nth i labels 0%Z = 0%Z <-> ~ In i [0%nat])).
Proof.
  apply (predict_marks_anomaly_indices (engine := capped_engine)
           (sorter := stable_argsort) stable_argsort_contract
           (sample tall_matrix (1 / 4)) (generator [0; 0]%nat)
           [0%nat] (drawn (generator [0; 0]%nat))).
  - apply tall_spectrum_nonempty.
  - rewrite (tall_get_anomaly_indices (1 / 4) 1 quarter_of_four).
    now rewrite stable_ranking_ties.
Defined.

(** Two calls from generators that draw the positions (0, 1) and (1, 0). *)
Lemma returned_results_independent_of_generator_witness :
  [tall_score; tall_score; tall_score; tall_score]
  = [tall_score; tall_score; tall_score; tall_score]
  /\ fst (get_anomaly_indices (engine := capped_engine) (sorter := stable_argsort)
            (sample tall_matrix (1 / 4)) (generator [0; 0]%nat))
     = fst (get_anomaly_indices (engine := capped_engine) (sorter := stable_argsort)
              (sample tall_matrix (1 / 4)) (generator [1; 0]%nat))
  /\ fst (predict (engine := capped_engine) (sorter := stable_argsort)
            (sample tall_matrix (1 / 4)) (generator [0; 0]%nat))
     = fst (predict (engine := capped_engine) (sorter := stable_argsort)
              (sample tall_matrix (1 / 4)) (generator [1; 0]%nat)).
Proof.
  apply (returned_results_independent_of_generator (engine := capped_engine)
           (sorter := stable_argsort)
           (sample tall_matrix (1 / 4))
           (generator [0; 0]%nat) (generator [1; 0]%nat)
           [tall_score; tall_score; tall_score; tall_score]
           [tall_score; tall_score; tall_score; tall_score]
           (drawn (generator [0; 0]%nat)) (drawn (generator [1; 0]%nat))).
  - apply tall_get_anomaly_score_any.
  - apply tall_get_anomaly_score_any.
Defined.
